(** * calc: a command-line arithmetic evaluator

    [src/src/main.cpp] holds two programs.  The first (lines 1-290) keeps
    its state in a [context] record, works on [std::int64_t] operands and
    prints a [mathlib::ml_result] that carries a kind tag; it is embedded
    as [Calc64].  The second (lines 291-564) works on [int] operands and
    prints every result with [%d]; it is embedded as [Calc32].

    What the programs take from outside is kept outside: the options that
    [getopt_long] hands back are the input of the model, [strtol] and
    [strtoll] follow the C standard, and the arithmetic library [mathlib]
    (not part of this repository) is a record of functions. *)

From Stdlib Require Import ZArith String Ascii List Bool Lia.
Import ListNotations.

Local Open Scope Z_scope.
Local Open Scope string_scope.

(** ** The C library: [isspace], [isdigit], [strtol] *)

Module Libc.

(** [isspace] in the "C" locale: space and the controls 9 to 13. *)
Definition isspace (c : ascii) : bool :=
  let n := nat_of_ascii c in
  (Nat.eqb n 32 || (Nat.leb 9 n && Nat.leb n 13))%bool.

Definition isdigit (c : ascii) : bool :=
  let n := nat_of_ascii c in
  (Nat.leb 48 n && Nat.leb n 57)%bool.

Definition digit_value (c : ascii) : Z := Z.of_nat (nat_of_ascii c) - 48.

(** What [strtol(nptr, &end, 10)] leaves behind: the returned value,
    the text [end] points at (a suffix of [nptr]) and whether [errno]
    was set to [ERANGE]. *)
Record strtol_result : Type := mk_strtol {
  value : Z;
  endptr : string;
  erange : bool
}.

Fixpoint skip_space (s : string) : string :=
  match s with
  | String c r => if isspace c then skip_space r else s
  | EmptyString => s
  end.

(** The digit loop: [acc] is the number read so far; the result is the
    number, how many digits were read and the text after them. *)
Fixpoint scan_digits (acc : Z) (s : string) : Z * nat * string :=
  match s with
  | String c r =>
      if isdigit c
      then let '(v, n, rest) := scan_digits (10 * acc + digit_value c) r in
           (v, S n, rest)
      else (acc, O, s)
  | EmptyString => (acc, O, s)
  end.

(** The end of a conversion: the number read is [v], the text after it
    [rest]; out of [lo .. hi] the value is clamped and [ERANGE] is
    raised. *)
Definition clamp_to (lo hi v : Z) (rest : string) : strtol_result :=
  if Z.ltb v lo then mk_strtol lo rest true
  else if Z.ltb hi v then mk_strtol hi rest true
  else mk_strtol v rest false.

(** [strtol] for a type with range [lo .. hi], base 10: white space, an
    optional sign, digits.  With no digit nothing is converted and [end]
    is [nptr] itself. *)
Definition strtol (lo hi : Z) (nptr : string) : strtol_result :=
  let s1 := skip_space nptr in
  let '(neg, s2) :=
    match s1 with
    | String c r =>
        if Ascii.eqb c "-" then (true, r)
        else if Ascii.eqb c "+" then (false, r)
        else (false, s1)
    | EmptyString => (false, s1)
    end in
  let '(m, n, rest) := scan_digits 0 s2 in
  match n with
  | O => mk_strtol 0 nptr false
  | S _ => clamp_to lo hi (if neg then - m else m) rest
  end.

(** [end == s] for two pointers into the same buffer: the suffixes
    they point at have the same length. *)
Definition same_ptr (p q : string) : bool :=
  Nat.eqb (String.length p) (String.length q).

(** [*end == '\0'] *)
Definition at_nul (p : string) : bool :=
  match p with EmptyString => true | String _ _ => false end.

Definition LLONG_MIN : Z := - 2 ^ 63.
Definition LLONG_MAX : Z := 2 ^ 63 - 1.
Definition INT_MIN : Z := - 2 ^ 31.
Definition INT_MAX : Z := 2 ^ 31 - 1.

Definition strtoll : string -> strtol_result := strtol LLONG_MIN LLONG_MAX.

End Libc.

(** ** What both programs declare alike *)

Module operation.
Inductive t : Set := none | add | sub | mul | div | pow | fact.

Definition eqb (x y : t) : bool :=
  match x, y with
  | none, none | add, add | sub, sub | mul, mul
  | div, div | pow, pow | fact, fact => true
  | _, _ => false
  end.
End operation.

Module exit_code.
Inductive t : Set := ok | usage | math.

(** [static_cast<int>(rc)] *)
Definition to_int (rc : t) : Z :=
  match rc with ok => 0 | usage => 1 | math => 2 end.

Definition is_ok (rc : t) : bool :=
  match rc with ok => true | _ => false end.
End exit_code.

(** [kOps]: the table of operation names. *)
Definition kOps : list (string * operation.t) :=
  [ ("add", operation.add); ("sub", operation.sub); ("mul", operation.mul);
    ("div", operation.div); ("pow", operation.pow); ("fact", operation.fact) ].

(** The loop of [parse_op] / [parse_operation]: the first entry whose
    name [strcmp]s equal. *)
Fixpoint lookup_op (tbl : list (string * operation.t)) (s : string)
  : option operation.t :=
  match tbl with
  | [] => None
  | (name, o) :: rest => if String.eqb s name then Some o else lookup_op rest s
  end.

(** One return of [getopt_long(argc, argv, "o:a:b:h", long_opts, nullptr)]
    before it returns -1: an option of the table with its [optarg], or
    anything else (['?'] for an unknown option or a missing argument). *)
Inductive getopt_ret : Type :=
| opt_o (optarg : string)
| opt_a (optarg : string)
| opt_b (optarg : string)
| opt_h
| opt_other.

Definition is_opt_o (g : getopt_ret) : bool :=
  match g with opt_o _ => true | _ => false end.
Definition is_opt_a (g : getopt_ret) : bool :=
  match g with opt_a _ => true | _ => false end.
Definition is_opt_b (g : getopt_ret) : bool :=
  match g with opt_b _ => true | _ => false end.

(** The formats the programs print a result with. *)
Inductive num_format : Set := fmt_lld | fmt_llu | fmt_d.

(** Calls into the arithmetic library, with the arguments as passed. *)
Inductive ml_call : Type :=
| call_add (a b : Z)
| call_sub (a b : Z)
| call_mul (a b : Z)
| call_div (a b : Z)
| call_pow (base exponent : Z)
| call_fact (n : Z).

(** What a run does, in order: the usage text on standard output
    ([help] / [print_help]), a result line on standard output, a line on
    standard error, a call of a [mathlib] function. *)
Inductive event : Type :=
| Help (prog : string)
| Result (f : num_format) (v : Z)
| Error (line : string)
| Engine (c : ml_call).

Definition on_stdout (e : event) : bool :=
  match e with Help _ | Result _ _ => true | _ => false end.

Definition is_result (e : event) : bool :=
  match e with Result _ _ => true | _ => false end.

Definition is_engine (e : event) : bool :=
  match e with Engine _ => true | _ => false end.

(** An event that is a library call or a printed result. *)
Definition noisy (e : event) : bool := is_engine e || is_result e.

(** The lines [help(prog)] prints. *)
Definition help_text (prog : string) : list string :=
  [ "Usage:";
    "  " ++ prog ++ " -o <op> -a <int> [-b <int>]";
    "";
    "Operations:";
    "  add   a + b";
    "  sub   a - b";
    "  mul   a * b";
    "  div   a / b   (checks division by 0)";
    "  pow   a ^ b   (b must be >= 0)";
    "  fact  a!      (a must be >= 0)";
    "";
    "Options:";
    "  -o, --op     operation name";
    "  -a, --a      first integer";
    "  -b, --b      second integer (required for add/sub/mul/div/pow)";
    "  -h, --help   show this help";
    "";
    "Examples:";
    "  " ++ prog ++ " -o add  -a 2  -b 3";
    "  " ++ prog ++ " -o fact -a 5" ].

(** Standard output as text: the usage text line by line, a result as
    its format and number. *)
Inductive stdout_item : Type :=
| Line (s : string)
| Number (f : num_format) (v : Z).

Fixpoint stdout_of (tr : list event) : list stdout_item :=
  match tr with
  | [] => []
  | Help prog :: rest => (map Line (help_text prog) ++ stdout_of rest)%list
  | Result f v :: rest => Number f v :: stdout_of rest
  | _ :: rest => stdout_of rest
  end.


(** ** Output as an effect

    A function that prints returns what it printed, in order, next to
    its value. *)

Definition io (A : Type) : Type := (list event * A)%type.

Definition ret {A} (x : A) : io A := ([], x).

Definition bind {A B} (m : io A) (k : A -> io B) : io B :=
  let '(t1, x) := m in
  let '(t2, y) := k x in
  ((t1 ++ t2)%list, y).

Definition emit (e : event) : io unit := ([e], tt).

Definition trace {A} (m : io A) : list event := fst m.
Definition result {A} (m : io A) : A := snd m.

Declare Scope io_scope.
Delimit Scope io_scope with io.
Notation "x <- m ;; k" := (bind m (fun x => k))
  (at level 61, m at next level, right associativity) : io_scope.
Notation "m ;; k" := (bind m (fun _ => k))
  (at level 61, right associativity) : io_scope.
Notation "' pat <- m ;; k" := (bind m (fun x => match x with pat => k end))
  (at level 61, pat pattern, m at next level, right associativity) : io_scope.
Local Open Scope io_scope.

(** [help] of the first program: the usage text on standard output. *)
Definition help (prog : string) : io unit := emit (Help prog).

(** ** The first program: 64-bit operands, tagged results *)

Module Calc64.

(** [mathlib.h] as this program uses it. *)
Module mathlib.
(** [ml_error]: the enumerators the program names, and [other] for
    any further one. *)
Inductive ml_error : Set := ok | div0 | overflow | other.
Inductive ml_kind : Set := i64 | u64.

Definition ml_error_eqb (x y : ml_error) : bool :=
  match x, y with
  | ok, ok | div0, div0 | overflow, overflow | other, other => true
  | _, _ => false
  end.

(** [value] is a union of [std::int64_t i64] and [std::uint64_t u64]:
    one 64-bit pattern, read through either member. *)
Record ml_result : Type := mk_result {
  error : ml_error;
  kind : ml_kind;
  value : Z
}.

Definition value_u64 (r : ml_result) : Z := value r mod 2 ^ 64.
Definition value_i64 (r : ml_result) : Z :=
  (value r + 2 ^ 63) mod 2 ^ 64 - 2 ^ 63.

(** The functions of the library, and the value-initialised
    [ml_result {}]. *)
Record lib : Type := mk_lib {
  ml_add : Z -> Z -> ml_result;
  ml_sub : Z -> Z -> ml_result;
  ml_mul : Z -> Z -> ml_result;
  ml_div : Z -> Z -> ml_result;
  ml_pow : Z -> Z -> ml_result;
  ml_fact : Z -> ml_result;
  ml_result_init : ml_result
}.
End mathlib.
Import mathlib.

Record context : Type := mk_context {
  op : operation.t;
  have_op : bool;
  a : Z;
  have_a : bool;
  b : Z;
  have_b : bool;
  r : ml_result
}.

(** [context c {}] *)
Definition context_init (m : lib) : context :=
  mk_context operation.none false 0 false 0 false (ml_result_init m).

Definition set_op (c : context) (have : bool) (o : operation.t) : context :=
  mk_context o have (a c) (have_a c) (b c) (have_b c) (r c).
Definition set_have_op (c : context) (have : bool) : context :=
  mk_context (op c) have (a c) (have_a c) (b c) (have_b c) (r c).
Definition set_a (c : context) (have : bool) (v : Z) : context :=
  mk_context (op c) (have_op c) v have (b c) (have_b c) (r c).
Definition set_have_a (c : context) (have : bool) : context :=
  mk_context (op c) (have_op c) (a c) have (b c) (have_b c) (r c).
Definition set_b (c : context) (have : bool) (v : Z) : context :=
  mk_context (op c) (have_op c) (a c) (have_a c) v have (r c).
Definition set_have_b (c : context) (have : bool) : context :=
  mk_context (op c) (have_op c) (a c) (have_a c) (b c) have (r c).
Definition set_r (c : context) (res : ml_result) : context :=
  mk_context (op c) (have_op c) (a c) (have_a c) (b c) (have_b c) res.

Definition needs_b (o : operation.t) : bool :=
  operation.eqb o operation.add || operation.eqb o operation.sub
  || operation.eqb o operation.mul || operation.eqb o operation.div
  || operation.eqb o operation.pow.

(** [parse_i64]: [Some v] is [true] with [*out = v], [None] is [false]
    with [*out] untouched.  [optarg] and [out] are never null here. *)
Definition parse_i64 (s : string) : option Z :=
  let res := Libc.strtoll s in
  if Libc.same_ptr (Libc.endptr res) s || negb (Libc.at_nul (Libc.endptr res))
  then None
  else if Libc.erange res then None
  else Some (Libc.value res).

Definition parse_op (s : string) : option operation.t := lookup_op kOps s.

Definition print_math_err (where_ : string) (e : ml_error) : io exit_code.t :=
  (if ml_error_eqb e div0 then
     emit (Error ("Error: " ++ where_ ++ ": division by zero"))
   else if ml_error_eqb e overflow then
     emit (Error ("Error: " ++ where_ ++ ": overflow"))
   else
     emit (Error ("Error: " ++ where_ ++ ": math error"))) ;;
  ret exit_code.math.

Definition print_result (res : ml_result) : io exit_code.t :=
  if negb (ml_error_eqb (error res) ok) then print_math_err "calc" (error res)
  else
    (match kind res with
     | i64 => emit (Result fmt_lld (value_i64 res))
     | u64 => emit (Result fmt_llu (value_u64 res))
     end) ;;
    ret exit_code.ok.

(** The [getopt_long] loop of [parse]; the context is the one [c]
    refers to, as the loop leaves it. *)
Fixpoint parse (c : context) (prog : string) (opts : list getopt_ret)
  : io (exit_code.t * context) :=
  match opts with
  | [] => ret (exit_code.ok, c)
  | opt_o optarg :: rest =>
      match parse_op optarg with
      | Some o => parse (set_op c true o) prog rest
      | None =>
          emit (Error ("Error: unknown operation '" ++ optarg ++ "'")) ;;
          ret (exit_code.usage, set_have_op c false)
      end
  | opt_a optarg :: rest =>
      match parse_i64 optarg with
      | Some v => parse (set_a c true v) prog rest
      | None =>
          emit (Error ("Error: invalid integer for -a: '" ++ optarg ++ "'")) ;;
          ret (exit_code.usage, set_have_a c false)
      end
  | opt_b optarg :: rest =>
      match parse_i64 optarg with
      | Some v => parse (set_b c true v) prog rest
      | None =>
          emit (Error ("Error: invalid integer for -b: '" ++ optarg ++ "'")) ;;
          ret (exit_code.usage, set_have_b c false)
      end
  | opt_h :: _ => help prog ;; ret (exit_code.usage, c)
  | opt_other :: _ => help prog ;; ret (exit_code.usage, c)
  end.

Definition check (c : context) (prog : string) : io exit_code.t :=
  if negb (have_op c) || negb (have_a c) then
    emit (Error "Error: missing -o or -a") ;; help prog ;; ret exit_code.usage
  else if negb (needs_b (op c)) && have_b c then
    emit (Error "Error: useless -b for this op") ;; help prog ;;
    ret exit_code.usage
  else if needs_b (op c) && negb (have_b c) then
    emit (Error "Error: missing -b for this op") ;; help prog ;;
    ret exit_code.usage
  else if operation.eqb (op c) operation.pow && (b c <? 0)%Z then
    emit (Error "Error: pow: domain error (b must be >= 0)") ;;
    ret exit_code.math
  else if operation.eqb (op c) operation.fact && (a c <? 0)%Z then
    emit (Error "Error: fact: domain error (a must be >= 0)") ;;
    ret exit_code.math
  else ret exit_code.ok.

(** [static_cast<std::uint64_t>(x)] of an [std::int64_t]. *)
Definition to_u64 (x : Z) : Z := x mod 2 ^ 64.

Definition calc (m : lib) (c : context) : io (exit_code.t * context) :=
  match op c with
  | operation.add =>
      emit (Engine (call_add (a c) (b c))) ;;
      ret (exit_code.ok, set_r c (ml_add m (a c) (b c)))
  | operation.sub =>
      emit (Engine (call_sub (a c) (b c))) ;;
      ret (exit_code.ok, set_r c (ml_sub m (a c) (b c)))
  | operation.mul =>
      emit (Engine (call_mul (a c) (b c))) ;;
      ret (exit_code.ok, set_r c (ml_mul m (a c) (b c)))
  | operation.div =>
      emit (Engine (call_div (a c) (b c))) ;;
      ret (exit_code.ok, set_r c (ml_div m (a c) (b c)))
  | operation.pow =>
      emit (Engine (call_pow (a c) (to_u64 (b c)))) ;;
      ret (exit_code.ok, set_r c (ml_pow m (a c) (to_u64 (b c))))
  | operation.fact =>
      emit (Engine (call_fact (to_u64 (a c)))) ;;
      ret (exit_code.ok, set_r c (ml_fact m (to_u64 (a c))))
  | operation.none =>
      emit (Error "Error: unknown operation") ;;
      ret (exit_code.usage, c)
  end.

Definition run (m : lib) (prog : string) (opts : list getopt_ret) : io Z :=
  '(rc, c) <- parse (context_init m) prog opts ;;
  if negb (exit_code.is_ok rc) then ret (exit_code.to_int rc) else
  rc <- check c prog ;;
  if negb (exit_code.is_ok rc) then ret (exit_code.to_int rc) else
  '(rc, c) <- calc m c ;;
  if negb (exit_code.is_ok rc) then ret (exit_code.to_int rc) else
  rc <- print_result (r c) ;;
  ret (exit_code.to_int rc).

(** [main] *)
Definition main (m : lib) (prog : string) (opts : list getopt_ret) : io Z :=
  run m prog opts.

(** The option loop went through all of [opts] and left [c]. *)
Definition resolves (m : lib) (prog : string) (opts : list getopt_ret)
    (c : context) : Prop :=
  parse (context_init m) prog opts = ([], (exit_code.ok, c)).

(** What holds of the context all along the loop: [have_op] tells
    whether an operation is stored, and the operands fit
    [std::int64_t]. *)
Definition invariant (c : context) : Prop :=
  (have_op c = true <-> op c <> operation.none) /\
  - 2 ^ 63 <= a c <= 2 ^ 63 - 1 /\
  - 2 ^ 63 <= b c <= 2 ^ 63 - 1.

(** The three usage tests of [check] let [c] pass: [-o] and [-a] were
    given, and [-b] exactly when the operation takes it. *)
Definition well_formed (c : context) : bool :=
  have_op c && have_a c && Bool.eqb (needs_b (op c)) (have_b c).

End Calc64.

(** ** The second program: [int] operands, untagged results *)

Module Calc32.

(** [mathlib.h] as this program uses it: a result has an [error] and an
    [int] [value]. *)
Module mathlib.
Inductive ml_error : Set := ok | div0 | other.

Definition ml_error_eqb (x y : ml_error) : bool :=
  match x, y with
  | ok, ok | div0, div0 | other, other => true
  | _, _ => false
  end.

Record ml_result : Type := mk_result {
  error : ml_error;
  value : Z
}.

Record lib : Type := mk_lib {
  ml_add : Z -> Z -> ml_result;
  ml_sub : Z -> Z -> ml_result;
  ml_mul : Z -> Z -> ml_result;
  ml_div : Z -> Z -> ml_result;
  ml_pow : Z -> Z -> ml_result;
  ml_fact : Z -> ml_result
}.
End mathlib.
Import mathlib.

Definition print_help (prog : string) : io unit := emit (Help prog).

(** The locals of [main] that the option loop assigns. *)
Record locals : Type := mk_locals {
  a : Z;
  b : Z;
  have_a : bool;
  have_b : bool;
  op : operation.t;
  have_op : bool
}.

Definition locals_init : locals :=
  mk_locals 0 0 false false operation.none false.

Definition set_op (l : locals) (o : operation.t) : locals :=
  mk_locals (a l) (b l) (have_a l) (have_b l) o true.
Definition set_a (l : locals) (v : Z) : locals :=
  mk_locals v (b l) true (have_b l) (op l) (have_op l).
Definition set_b (l : locals) (v : Z) : locals :=
  mk_locals (a l) v (have_a l) true (op l) (have_op l).

Section Platform.
(** The width of [long], which [strtol] returns: 64 on LP64 targets,
    32 on ILP32 and LLP64 ones. *)
Variable long_bits : Z.

Definition LONG_MIN : Z := - 2 ^ (long_bits - 1).
Definition LONG_MAX : Z := 2 ^ (long_bits - 1) - 1.

(** [parse_int]; [errno] is not looked at. *)
Definition parse_int (s : string) : option Z :=
  let res := Libc.strtol LONG_MIN LONG_MAX s in
  let v := Libc.value res in
  if Libc.same_ptr (Libc.endptr res) s || negb (Libc.at_nul (Libc.endptr res))
  then None
  else if (v <? Libc.INT_MIN)%Z || (Libc.INT_MAX <? v)%Z then None
  else Some v.

Definition parse_operation (s : string) : option operation.t :=
  lookup_op kOps s.

Definition needs_b (o : operation.t) : bool :=
  match o with
  | operation.add => true
  | operation.sub => true
  | operation.mul => true
  | operation.div => true
  | operation.pow => true
  | operation.fact => false
  | operation.none => false
  end.

Definition print_math_error (name : string) (err : ml_error) : io Z :=
  (if ml_error_eqb err div0 then
     emit (Error ("Error: " ++ name ++ ": division by zero"))
   else
     emit (Error ("Error: " ++ name ++ ": unknown math error"))) ;;
  ret (exit_code.to_int exit_code.math).

(** [static_cast<unsigned int>(x)] of an [int]. *)
Definition to_uint (x : Z) : Z := x mod 2 ^ 32.

Definition run_operation (m : lib) (o : operation.t) (a b : Z) : io Z :=
  match o with
  | operation.add =>
      emit (Engine (call_add a b)) ;;
      let r := ml_add m a b in
      emit (Result fmt_d (value r)) ;;
      ret (exit_code.to_int exit_code.ok)
  | operation.sub =>
      emit (Engine (call_sub a b)) ;;
      let r := ml_sub m a b in
      emit (Result fmt_d (value r)) ;;
      ret (exit_code.to_int exit_code.ok)
  | operation.mul =>
      emit (Engine (call_mul a b)) ;;
      let r := ml_mul m a b in
      emit (Result fmt_d (value r)) ;;
      ret (exit_code.to_int exit_code.ok)
  | operation.div =>
      emit (Engine (call_div a b)) ;;
      let r := ml_div m a b in
      if negb (ml_error_eqb (error r) ok) then print_math_error "div" (error r)
      else
        emit (Result fmt_d (value r)) ;;
        ret (exit_code.to_int exit_code.ok)
  | operation.pow =>
      if (b <? 0)%Z then
        emit (Error "Error: pow: domain error (b must be >= 0)") ;;
        ret (exit_code.to_int exit_code.math)
      else
        emit (Engine (call_pow a (to_uint b))) ;;
        let r := ml_pow m a (to_uint b) in
        emit (Result fmt_d (value r)) ;;
        ret (exit_code.to_int exit_code.ok)
  | operation.fact =>
      if (a <? 0)%Z then
        emit (Error "Error: fact: domain error (a must be >= 0)") ;;
        ret (exit_code.to_int exit_code.math)
      else
        emit (Engine (call_fact (to_uint a))) ;;
        let r := ml_fact m (to_uint a) in
        emit (Result fmt_d (value r)) ;;
        ret (exit_code.to_int exit_code.ok)
  | operation.none =>
      emit (Error "Error: unknown operation") ;;
      ret (exit_code.to_int exit_code.usage)
  end.

(** The [while] loop of [main]: [inr n] when the loop body returns [n]
    from [main], [inl l] when [getopt_long] returns -1 with the locals
    as [l]. *)
Fixpoint getopt_loop (l : locals) (prog : string) (opts : list getopt_ret)
  : io (locals + Z) :=
  match opts with
  | [] => ret (inl l)
  | opt_o optarg :: rest =>
      match parse_operation optarg with
      | Some o => getopt_loop (set_op l o) prog rest
      | None =>
          emit (Error ("Error: unknown operation '" ++ optarg ++ "'")) ;;
          ret (inr (exit_code.to_int exit_code.usage))
      end
  | opt_a optarg :: rest =>
      match parse_int optarg with
      | Some v => getopt_loop (set_a l v) prog rest
      | None =>
          emit (Error ("Error: invalid integer for -a: '" ++ optarg ++ "'")) ;;
          ret (inr (exit_code.to_int exit_code.usage))
      end
  | opt_b optarg :: rest =>
      match parse_int optarg with
      | Some v => getopt_loop (set_b l v) prog rest
      | None =>
          emit (Error ("Error: invalid integer for -b: '" ++ optarg ++ "'")) ;;
          ret (inr (exit_code.to_int exit_code.usage))
      end
  | opt_h :: _ => print_help prog ;; ret (inr (exit_code.to_int exit_code.ok))
  | opt_other :: _ => print_help prog ;; ret (inr (exit_code.to_int exit_code.usage))
  end.

Definition main (m : lib) (prog : string) (opts : list getopt_ret) : io Z :=
  s <- getopt_loop locals_init prog opts ;;
  match s with
  | inr n => ret n
  | inl l =>
      if negb (have_op l) || negb (have_a l) then
        emit (Error "Error: missing required arguments") ;; print_help prog ;;
        ret (exit_code.to_int exit_code.usage)
      else if negb (needs_b (op l)) && have_b l then
        emit (Error "Error: useless -b for this operation") ;; print_help prog ;;
        ret (exit_code.to_int exit_code.usage)
      else if needs_b (op l) && negb (have_b l) then
        emit (Error "Error: missing -b for this operation") ;; print_help prog ;;
        ret (exit_code.to_int exit_code.usage)
      else if operation.eqb (op l) operation.pow && (b l <? 0)%Z then
        emit (Error "Error: pow: domain error (b must be >= 0)") ;;
        ret (exit_code.to_int exit_code.math)
      else run_operation m (op l) (a l) (b l)
  end.

(** The option loop went through all of [opts] and left [l]. *)
Definition resolves (prog : string) (opts : list getopt_ret) (l : locals)
  : Prop :=
  getopt_loop locals_init prog opts = ([], inl l).
End Platform.

(** What holds of the locals all along the loop. *)
Definition invariant (l : locals) : Prop :=
  (have_op l = true <-> op l <> operation.none) /\
  - 2 ^ 31 <= a l <= 2 ^ 31 - 1 /\
  - 2 ^ 31 <= b l <= 2 ^ 31 - 1.

(** The three usage tests of [main] let [l] pass. *)
Definition well_formed (l : locals) : bool :=
  have_op l && have_a l && Bool.eqb (needs_b (op l)) (have_b l).

End Calc32.

(** ** The specification's side

    [mathlib] is a library the programs link against; its sources are
    not in this repository.  What the specification says of it, and the
    specification's notion of an operand, are written down here. *)

Module Spec.

(** Modelled from the spec: n! of the missing [mathlib], "by
    convention 0! = 1". *)
Fixpoint factorial (n : nat) : Z :=
  match n with
  | O => 1
  | S k => Z.of_nat n * factorial k
  end.

(** Modelled from the spec: the "result semantics" column of the table
    of section 4.2, for the functions of the missing [mathlib]. *)
Definition exact (o : operation.t) (a b : Z) : Z :=
  match o with
  | operation.add => a + b
  | operation.sub => a - b
  | operation.mul => a * b
  | operation.div => Z.quot a b
  | operation.pow => a ^ b
  | operation.fact => factorial (Z.to_nat a)
  | operation.none => 0
  end.

Definition in_range (lo hi v : Z) : bool := (lo <=? v)%Z && (v <=? hi)%Z.

(** Modelled from the spec: the missing [mathlib] behind the first
    program, as section 4.2 describes the checked engine: a result is
    the exact value when it is representable and the overflow error
    otherwise, [div] by zero is the divide-by-zero error.  Signed
    results are [std::int64_t]; the factorial, unsigned by nature, is
    [std::uint64_t]. *)
Definition signed64 (v : Z) : Calc64.mathlib.ml_result :=
  if in_range (- 2 ^ 63) (2 ^ 63 - 1) v
  then Calc64.mathlib.mk_result Calc64.mathlib.ok Calc64.mathlib.i64 (v mod 2 ^ 64)
  else Calc64.mathlib.mk_result Calc64.mathlib.overflow Calc64.mathlib.i64 0.

Definition unsigned64 (v : Z) : Calc64.mathlib.ml_result :=
  if in_range 0 (2 ^ 64 - 1) v
  then Calc64.mathlib.mk_result Calc64.mathlib.ok Calc64.mathlib.u64 v
  else Calc64.mathlib.mk_result Calc64.mathlib.overflow Calc64.mathlib.u64 0.

Definition checked64 : Calc64.mathlib.lib :=
  Calc64.mathlib.mk_lib
    (fun a b => signed64 (exact operation.add a b))
    (fun a b => signed64 (exact operation.sub a b))
    (fun a b => signed64 (exact operation.mul a b))
    (fun a b =>
       if (b =? 0)%Z
       then Calc64.mathlib.mk_result Calc64.mathlib.div0 Calc64.mathlib.i64 0
       else signed64 (exact operation.div a b))
    (fun a b => signed64 (exact operation.pow a b))
    (fun a => unsigned64 (exact operation.fact a 0))
    (Calc64.mathlib.mk_result Calc64.mathlib.ok Calc64.mathlib.i64 0).

(** Modelled from the spec: the missing [mathlib] behind the second
    program, the same engine on [int]; this program's sources name no
    enumerator for overflow, so it is [other] here. *)
Definition signed32 (v : Z) : Calc32.mathlib.ml_result :=
  if in_range Libc.INT_MIN Libc.INT_MAX v
  then Calc32.mathlib.mk_result Calc32.mathlib.ok v
  else Calc32.mathlib.mk_result Calc32.mathlib.other 0.

Definition checked32 : Calc32.mathlib.lib :=
  Calc32.mathlib.mk_lib
    (fun a b => signed32 (exact operation.add a b))
    (fun a b => signed32 (exact operation.sub a b))
    (fun a b => signed32 (exact operation.mul a b))
    (fun a b =>
       if (b =? 0)%Z
       then Calc32.mathlib.mk_result Calc32.mathlib.div0 0
       else signed32 (exact operation.div a b))
    (fun a b => signed32 (exact operation.pow a b))
    (fun a => signed32 (exact operation.fact a 0)).

(** Modelled from the spec: "[div] with divisor 0 always yields
    divide-by-zero", as a property a [mathlib] may have. *)
Definition div0_checked64 (m : Calc64.mathlib.lib) : Prop :=
  forall a, Calc64.mathlib.error (Calc64.mathlib.ml_div m a 0)
            = Calc64.mathlib.div0.

Definition div0_checked32 (m : Calc32.mathlib.lib) : Prop :=
  forall a, Calc32.mathlib.error (Calc32.mathlib.ml_div m a 0)
            = Calc32.mathlib.div0.

(** The operand in the specification's words, to be compared with
    what [strtol] reads: a base-10 signed integer is an optional sign
    and at least one decimal digit. *)
Fixpoint all_digits (s : string) : bool :=
  match s with
  | EmptyString => true
  | String c r => Libc.isdigit c && all_digits r
  end.

Fixpoint all_space (s : string) : bool :=
  match s with
  | EmptyString => true
  | String c r => Libc.isspace c && all_space r
  end.

(** The number a digit string denotes: its last digit plus ten times
    what precedes it. *)
Fixpoint decimal_value (s : string) : Z :=
  match s with
  | EmptyString => 0
  | String c r =>
      Libc.digit_value c * 10 ^ Z.of_nat (String.length r) + decimal_value r
  end.

Definition digits (s : string) : bool :=
  negb (Libc.at_nul s) && all_digits s.

Definition signed_decimal (s : string) : option Z :=
  match s with
  | String c r =>
      if Ascii.eqb c "-" then
        if digits r then Some (- decimal_value r) else None
      else if Ascii.eqb c "+" then
        if digits r then Some (decimal_value r) else None
      else if digits s then Some (decimal_value s) else None
  | EmptyString => None
  end.

(** The operands the programs take: white space, then a signed
    decimal that fits [lo .. hi]. *)
Definition operand (lo hi : Z) (s : string) (v : Z) : Prop :=
  exists ws body,
    s = ws ++ body /\ all_space ws = true /\
    signed_decimal body = Some v /\ lo <= v <= hi.

End Spec.

(** ** The C library: [printf] of an integer *)

Module Stdio.

(** The decimal digits of [n], most significant first, put in front of
    [acc]; [fuel] bounds how many there are. *)
Fixpoint digits_of (fuel : nat) (n : Z) (acc : string) : string :=
  match fuel with
  | O => acc
  | S f =>
      let acc' := String (ascii_of_nat (Z.to_nat (48 + n mod 10))) acc in
      if (n / 10 =? 0)%Z then acc' else digits_of f (n / 10) acc'
  end.

(** [%llu] of a non-negative number. *)
Definition print_unsigned (n : Z) : string :=
  digits_of (S (Z.to_nat (Z.log2 n))) n "".

(** [%lld] and [%d]. *)
Definition print_signed (v : Z) : string :=
  if (v <? 0)%Z then String "-" (print_unsigned (- v)) else print_unsigned v.

(** What [printf] writes for the number of a [Result], without the
    newline. *)
Definition sprintf (f : num_format) (v : Z) : string :=
  match f with
  | fmt_llu => print_unsigned v
  | fmt_lld | fmt_d => print_signed v
  end.

End Stdio.

(** The flag an option sets, if it is one of [-o], [-a], [-b]. *)
Definition flag_of (g : getopt_ret) : option ascii :=
  match g with
  | opt_o _ => Some "o"%char
  | opt_a _ => Some "a"%char
  | opt_b _ => Some "b"%char
  | opt_h | opt_other => None
  end.

(** An option of [-o], [-a], [-b] whose string the first program parses;
    likewise for the second. *)
Definition accepted64 (g : getopt_ret) : bool :=
  match g with
  | opt_o s => match Calc64.parse_op s with Some _ => true | None => false end
  | opt_a s | opt_b s =>
      match Calc64.parse_i64 s with Some _ => true | None => false end
  | opt_h | opt_other => false
  end.

Definition accepted32 (long_bits : Z) (g : getopt_ret) : bool :=
  match g with
  | opt_o s =>
      match Calc32.parse_operation s with Some _ => true | None => false end
  | opt_a s | opt_b s =>
      match Calc32.parse_int long_bits s with Some _ => true | None => false end
  | opt_h | opt_other => false
  end.

(** * Properties *)

#[local] Arguments Z.mul : simpl never.
#[local] Arguments Z.add : simpl never.
#[local] Arguments Z.sub : simpl never.
#[local] Arguments Z.pow : simpl never.
#[local] Arguments Z.opp : simpl never.
#[local] Arguments Z.modulo : simpl never.
#[local] Arguments Z.of_nat : simpl never.

(** ** The output effect *)

Lemma bind_nil {A B} (x : A) (k : A -> io B) : bind ([], x) k = k x.
Proof. unfold bind. destruct (k x); reflexivity. Qed.

(** ** The option loop of the first program *)

(** No output on the way to a successful end of the loop. *)
Lemma parse64_ok_silent prog opts : forall c t c',
  Calc64.parse c prog opts = (t, (exit_code.ok, c')) -> t = [].
Proof.
  induction opts as [|o rest IH]; intros c t c' H; simpl in H.
  - inversion H; reflexivity.
  - destruct o; simpl in H.
    + destruct (Calc64.parse_op optarg); [eauto | discriminate].
    + destruct (Calc64.parse_i64 optarg); [eauto | discriminate].
    + destruct (Calc64.parse_i64 optarg); [eauto | discriminate].
    + discriminate.
    + discriminate.
Qed.

(** Options after a prefix that went through are read from the context
    the prefix left. *)
Lemma parse64_app prog pre post : forall c c',
  Calc64.parse c prog pre = ([], (exit_code.ok, c')) ->
  Calc64.parse c prog (pre ++ post) = Calc64.parse c' prog post.
Proof.
  induction pre as [|o rest IH]; intros c c' H; simpl in H.
  - inversion H; reflexivity.
  - destruct o; simpl in *.
    + destruct (Calc64.parse_op optarg); [eauto | discriminate].
    + destruct (Calc64.parse_i64 optarg); [eauto | discriminate].
    + destruct (Calc64.parse_i64 optarg); [eauto | discriminate].
    + discriminate.
    + discriminate.
Qed.

(** The loop calls nothing and prints no result. *)
Lemma parse64_quiet prog opts : forall c,
  existsb noisy (trace (Calc64.parse c prog opts)) = false.
Proof.
  induction opts as [|o rest IH]; intros c; simpl; auto.
  destruct o; simpl; auto.
  - destruct (Calc64.parse_op optarg); simpl; auto.
  - destruct (Calc64.parse_i64 optarg); simpl; auto.
  - destruct (Calc64.parse_i64 optarg); simpl; auto.
Qed.

(** ** [strtol] reads what the specification calls an operand *)

Section Strtol.
Import Libc Spec.

Lemma isdigit_range c :
  isdigit c = true -> (48 <= nat_of_ascii c <= 57)%nat.
Proof.
  unfold isdigit; intros H.
  apply andb_true_iff in H as [H1 H2].
  apply Nat.leb_le in H1, H2; lia.
Qed.

Lemma isdigit_not_space c : isdigit c = true -> isspace c = false.
Proof.
  intros H; apply isdigit_range in H. unfold isspace.
  apply orb_false_iff; split.
  - apply Nat.eqb_neq; lia.
  - apply andb_false_iff; right; apply Nat.leb_gt; lia.
Qed.

Lemma isdigit_not_sign c :
  isdigit c = true -> Ascii.eqb c "-" = false /\ Ascii.eqb c "+" = false.
Proof.
  intros H; split; apply Ascii.eqb_neq; intros ->; discriminate H.
Qed.

Lemma skip_space_split s :
  exists ws, s = ws ++ skip_space s /\ all_space ws = true.
Proof.
  induction s as [|c r [ws [E W]]]; simpl.
  - exists ""; auto.
  - destruct (isspace c) eqn:Hc.
    + exists (String c ws); simpl; rewrite Hc, W, <- E; auto.
    + exists ""; auto.
Qed.

Lemma skip_space_app ws c r :
  all_space ws = true -> isspace c = false ->
  skip_space (ws ++ String c r) = String c r.
Proof.
  induction ws as [|w ws IH]; simpl; intros W Hc.
  - rewrite Hc; reflexivity.
  - apply andb_true_iff in W as [W1 W2]. rewrite W1; auto.
Qed.

Lemma length_append (s t : string) :
  String.length (s ++ t) = (String.length s + String.length t)%nat.
Proof. induction s; simpl; auto. Qed.

Lemma append_nil_r (s : string) : s ++ "" = s.
Proof. induction s; simpl; congruence. Qed.

(** What the digit loop returns: the digits it walked over, their
    count, and the accumulator shifted by them. *)
Lemma scan_digits_split s : forall acc,
  exists ds,
    s = ds ++ snd (scan_digits acc s) /\
    all_digits ds = true /\
    String.length ds = snd (fst (scan_digits acc s)) /\
    fst (fst (scan_digits acc s))
      = acc * 10 ^ Z.of_nat (String.length ds) + decimal_value ds.
Proof.
  induction s as [|c r IH]; intros acc; simpl.
  - exists ""; simpl; repeat split; lia.
  - destruct (isdigit c) eqn:Hc.
    + destruct (IH (10 * acc + digit_value c)) as [ds [E [D [L V]]]].
      destruct (scan_digits (10 * acc + digit_value c) r) as [[v n] rest].
      simpl in *. exists (String c ds); simpl.
      rewrite Hc, D, <- E, L. repeat split; auto.
      rewrite V, <- L, Nat2Z.inj_succ, Z.pow_succ_r by lia. ring.
    + exists ""; simpl; repeat split; lia.
Qed.

Lemma scan_digits_all ds : forall acc,
  all_digits ds = true ->
  scan_digits acc ds
    = (acc * 10 ^ Z.of_nat (String.length ds) + decimal_value ds,
       String.length ds, "").
Proof.
  induction ds as [|c r IH]; intros acc D; simpl in *.
  - f_equal; f_equal; lia.
  - apply andb_true_iff in D as [Hc D]. rewrite Hc, (IH _ D).
    f_equal; f_equal.
    rewrite Nat2Z.inj_succ, Z.pow_succ_r by lia. ring.
Qed.

Lemma same_ptr_refl s : same_ptr s s = true.
Proof. apply Nat.eqb_refl. Qed.

Lemma at_nul_inv s : at_nul s = true -> s = "".
Proof. destruct s; simpl; congruence. Qed.

Lemma digits_of_scan ds n :
  all_digits ds = true -> String.length ds = S n -> digits ds = true.
Proof. destruct ds; simpl; intros D L; [discriminate | exact D]. Qed.

(** A conversion that consumed the whole of [s] read an operand of the
    specification, up to the clamping. *)
Lemma strtol_sound lo hi s :
  same_ptr (endptr (strtol lo hi s)) s = false ->
  at_nul (endptr (strtol lo hi s)) = true ->
  exists ws body x,
    s = ws ++ body /\ all_space ws = true /\
    signed_decimal body = Some x /\
    strtol lo hi s = clamp_to lo hi x "".
Proof.
  unfold strtol.
  destruct (skip_space_split s) as [ws [E W]].
  destruct (skip_space s) as [|c r] eqn:S1.
  - simpl. rewrite same_ptr_refl. discriminate.
  - destruct (Ascii.eqb c "-") eqn:Hm; [|destruct (Ascii.eqb c "+") eqn:Hp].
    + destruct (scan_digits_split r 0) as [ds [Er [D [L V]]]].
      destruct (scan_digits 0 r) as [[m n] rest]. simpl in Er, L, V.
      destruct n as [|n]; simpl; [rewrite same_ptr_refl; discriminate|].
      intros _ Hnul.
      assert (rest = "") as ->.
      { apply at_nul_inv. revert Hnul. unfold clamp_to.
        destruct (Z.ltb _ _); [|destruct (Z.ltb _ _)]; auto. }
      rewrite append_nil_r in Er; subst r.
      exists ws, (String c ds), (- decimal_value ds).
      repeat split; auto.
      * simpl. rewrite Hm, (digits_of_scan ds n D L). reflexivity.
      * rewrite V; f_equal; lia.
    + destruct (scan_digits_split r 0) as [ds [Er [D [L V]]]].
      destruct (scan_digits 0 r) as [[m n] rest]. simpl in Er, L, V.
      destruct n as [|n]; simpl; [rewrite same_ptr_refl; discriminate|].
      intros _ Hnul.
      assert (rest = "") as ->.
      { apply at_nul_inv. revert Hnul. unfold clamp_to.
        destruct (Z.ltb _ _); [|destruct (Z.ltb _ _)]; auto. }
      rewrite append_nil_r in Er; subst r.
      exists ws, (String c ds), (decimal_value ds).
      repeat split; auto.
      * simpl. rewrite Hm, Hp, (digits_of_scan ds n D L). reflexivity.
      * rewrite V; f_equal; lia.
    + destruct (scan_digits_split (String c r) 0) as [ds [Er [D [L V]]]].
      destruct (scan_digits 0 (String c r)) as [[m n] rest].
      simpl in Er, L, V.
      destruct n as [|n]; simpl; [rewrite same_ptr_refl; discriminate|].
      intros _ Hnul.
      assert (rest = "") as ->.
      { apply at_nul_inv. revert Hnul. unfold clamp_to.
        destruct (Z.ltb _ _); [|destruct (Z.ltb _ _)]; auto. }
      rewrite append_nil_r in Er; subst ds.
      exists ws, (String c r), (decimal_value (String c r)).
      repeat split; auto.
      * unfold signed_decimal. rewrite Hm, Hp.
        rewrite (digits_of_scan _ n D L). reflexivity.
      * rewrite V; f_equal; lia.
Qed.

Lemma digits_inv s :
  digits s = true ->
  all_digits s = true /\ exists c r, s = String c r /\ isdigit c = true.
Proof.
  unfold digits. destruct s as [|c r]; simpl; [discriminate|].
  intros D; split; auto.
  apply andb_true_iff in D as [Hc _]. exists c, r; auto.
Qed.

(** An operand of the specification, after white space, is converted
    whole. *)
Lemma strtol_complete lo hi ws body x :
  all_space ws = true -> signed_decimal body = Some x ->
  strtol lo hi (ws ++ body) = clamp_to lo hi x "".
Proof.
  intros W B. destruct body as [|c r]; [discriminate|].
  unfold signed_decimal in B. unfold strtol.
  destruct (Ascii.eqb c "-") eqn:Hm; [|destruct (Ascii.eqb c "+") eqn:Hp].
  - apply Ascii.eqb_eq in Hm as ->.
    rewrite skip_space_app by auto. simpl.
    destruct (digits r) eqn:D; [|discriminate]. injection B as <-.
    apply digits_inv in D as [D [c' [r' [-> _]]]].
    rewrite (scan_digits_all _ 0 D). simpl; f_equal; lia.
  - apply Ascii.eqb_eq in Hp as ->.
    rewrite skip_space_app by auto. simpl.
    destruct (digits r) eqn:D; [|discriminate]. injection B as <-.
    apply digits_inv in D as [D [c' [r' [-> _]]]].
    rewrite (scan_digits_all _ 0 D). simpl; f_equal; lia.
  - destruct (digits (String c r)) eqn:D; [|discriminate]. injection B as <-.
    apply digits_inv in D as [D [c' [r' [Ecr Hc]]]].
    injection Ecr as <- <-.
    rewrite skip_space_app by auto using isdigit_not_space.
    rewrite Hm, Hp.
    rewrite (scan_digits_all _ 0 D). simpl String.length. cbv iota beta.
    f_equal; lia.
Qed.

Lemma operand_nonempty ws body x :
  signed_decimal body = Some x -> same_ptr "" (ws ++ body) = false.
Proof.
  intros B. destruct body as [|c r]; [discriminate|].
  unfold same_ptr. rewrite length_append. simpl.
  rewrite Nat.add_succ_r. reflexivity.
Qed.
End Strtol.

(** ** Which operands [parse_i64] and [parse_int] take *)

Lemma parse_i64_operand s v :
  Calc64.parse_i64 s = Some v <->
  Spec.operand Libc.LLONG_MIN Libc.LLONG_MAX s v.
Proof.
  unfold Calc64.parse_i64, Libc.strtoll. split.
  - destruct (Libc.same_ptr _ s) eqn:P; [discriminate|].
    destruct (Libc.at_nul _) eqn:N; [|discriminate]. simpl.
    destruct (strtol_sound _ _ s P N) as [ws [body [x [E [W [B R]]]]]].
    rewrite R. unfold Libc.clamp_to.
    destruct (Z.ltb_spec x Libc.LLONG_MIN); [discriminate|].
    destruct (Z.ltb_spec Libc.LLONG_MAX x); [discriminate|].
    simpl. intros [= <-]. exists ws, body. auto.
  - intros [ws [body [-> [W [B R]]]]].
    rewrite (strtol_complete _ _ ws body v W B). unfold Libc.clamp_to.
    destruct (Z.ltb_spec v Libc.LLONG_MIN); [lia|].
    destruct (Z.ltb_spec Libc.LLONG_MAX v); [lia|].
    simpl. rewrite (operand_nonempty ws body v B). reflexivity.
Qed.

Lemma long_wider long_bits :
  32 < long_bits ->
  Calc32.LONG_MIN long_bits < Libc.INT_MIN /\
  Libc.INT_MAX < Calc32.LONG_MAX long_bits.
Proof.
  intros H. unfold Calc32.LONG_MIN, Calc32.LONG_MAX, Libc.INT_MIN, Libc.INT_MAX.
  assert (2 ^ 31 < 2 ^ (long_bits - 1)) by (apply Z.pow_lt_mono_r; lia).
  lia.
Qed.

Lemma parse_int_operand long_bits s v :
  32 < long_bits ->
  Calc32.parse_int long_bits s = Some v <->
  Spec.operand Libc.INT_MIN Libc.INT_MAX s v.
Proof.
  intros HL. destruct (long_wider long_bits HL) as [Hlo Hhi].
  unfold Calc32.parse_int. split.
  - destruct (Libc.same_ptr _ s) eqn:P; [easy|].
    destruct (Libc.at_nul _) eqn:N; [|discriminate].
    destruct (strtol_sound _ _ s P N) as [ws [body [x [E [W [B R]]]]]].
    rewrite R. unfold Libc.clamp_to.
    destruct (Z.ltb_spec x (Calc32.LONG_MIN long_bits));
      [|destruct (Z.ltb_spec (Calc32.LONG_MAX long_bits) x)];
      cbn [Libc.value Libc.endptr Libc.erange orb negb].
    + destruct (Z.ltb_spec (Calc32.LONG_MIN long_bits) Libc.INT_MIN);
        cbn [orb]; [easy | exfalso; lia].
    + destruct (Z.ltb_spec (Calc32.LONG_MAX long_bits) Libc.INT_MIN);
        cbn [orb]; [easy|].
      destruct (Z.ltb_spec Libc.INT_MAX (Calc32.LONG_MAX long_bits));
        [easy | exfalso; lia].
    + destruct (Z.ltb_spec x Libc.INT_MIN); cbn [orb]; [easy|].
      destruct (Z.ltb_spec Libc.INT_MAX x); [easy|].
      intros [= <-]. exists ws, body. auto.
  - intros [ws [body [-> [W [B R]]]]].
    rewrite (strtol_complete _ _ ws body v W B). unfold Libc.clamp_to.
    destruct (Z.ltb_spec v (Calc32.LONG_MIN long_bits)); [lia|].
    destruct (Z.ltb_spec (Calc32.LONG_MAX long_bits) v); [lia|].
    cbn [Libc.value Libc.endptr Libc.erange].
    rewrite (operand_nonempty ws body v B).
    destruct (Z.ltb_spec v Libc.INT_MIN); [lia|].
    destruct (Z.ltb_spec Libc.INT_MAX v); [lia|]. reflexivity.
Qed.

(** With a [long] of 32 bits [parse_int] takes an operand that does
    not fit, clamped: [errno] is not looked at. *)
Lemma narrow_long_clamps :
  Calc32.parse_int 32 "99999999999" = Some 2147483647.
Proof. reflexivity. Qed.

(** What [parse_i64] hands out fits [std::int64_t]; what [parse_int]
    hands out fits [int], whatever [long] is. *)
Lemma parse_i64_range s v :
  Calc64.parse_i64 s = Some v -> - 2 ^ 63 <= v <= 2 ^ 63 - 1.
Proof.
  intros H. apply parse_i64_operand in H as [ws [body [_ [_ [_ R]]]]].
  exact R.
Qed.

Lemma parse_int_range long_bits s v :
  Calc32.parse_int long_bits s = Some v -> - 2 ^ 31 <= v <= 2 ^ 31 - 1.
Proof.
  unfold Calc32.parse_int.
  destruct (_ || _)%bool; [easy|].
  destruct (Z.ltb_spec (Libc.value (Libc.strtol (Calc32.LONG_MIN long_bits)
              (Calc32.LONG_MAX long_bits) s)) Libc.INT_MIN);
    cbn [orb]; [easy|].
  destruct (Z.ltb_spec Libc.INT_MAX (Libc.value (Libc.strtol
              (Calc32.LONG_MIN long_bits) (Calc32.LONG_MAX long_bits) s)));
    [easy|].
  simpl. intros [= <-]. unfold Libc.INT_MIN, Libc.INT_MAX in *. lia.
Qed.

(** ** The option loop of the second program *)

Lemma loop32_ok_silent lb prog opts : forall l t l',
  Calc32.getopt_loop lb l prog opts = (t, inl l') -> t = [].
Proof.
  induction opts as [|o rest IH]; intros l t l' H; simpl in H.
  - inversion H; reflexivity.
  - destruct o; simpl in H.
    + destruct (Calc32.parse_operation optarg); [eauto | discriminate].
    + destruct (Calc32.parse_int lb optarg); [eauto | discriminate].
    + destruct (Calc32.parse_int lb optarg); [eauto | discriminate].
    + discriminate.
    + discriminate.
Qed.

Lemma loop32_app lb prog pre post : forall l l',
  Calc32.getopt_loop lb l prog pre = ([], inl l') ->
  Calc32.getopt_loop lb l prog (pre ++ post)
  = Calc32.getopt_loop lb l' prog post.
Proof.
  induction pre as [|o rest IH]; intros l l' H; simpl in H.
  - inversion H; reflexivity.
  - destruct o; simpl in *.
    + destruct (Calc32.parse_operation optarg); [eauto | discriminate].
    + destruct (Calc32.parse_int lb optarg); [eauto | discriminate].
    + destruct (Calc32.parse_int lb optarg); [eauto | discriminate].
    + discriminate.
    + discriminate.
Qed.

Lemma loop32_quiet lb prog opts : forall l,
  existsb noisy (trace (Calc32.getopt_loop lb l prog opts)) = false.
Proof.
  induction opts as [|o rest IH]; intros l; simpl; auto.
  destruct o; simpl; auto.
  - destruct (Calc32.parse_operation optarg); simpl; auto.
  - destruct (Calc32.parse_int lb optarg); simpl; auto.
  - destruct (Calc32.parse_int lb optarg); simpl; auto.
Qed.

(** ** Invariants of the loops *)

Lemma lookup_kOps_not_none s o :
  lookup_op kOps s = Some o -> o <> operation.none.
Proof.
  unfold kOps; simpl.
  repeat (destruct (String.eqb s _); [intros [= <-]; discriminate|]).
  discriminate.
Qed.

Lemma parse64_inv prog opts : forall c t c',
  Calc64.invariant c ->
  Calc64.parse c prog opts = (t, (exit_code.ok, c')) -> Calc64.invariant c'.
Proof.
  induction opts as [|o rest IH]; intros c t c' I H; simpl in H.
  - inversion H; subst; exact I.
  - destruct I as [I1 [I2 I3]]. destruct o; simpl in H; try discriminate.
    + destruct (Calc64.parse_op optarg) eqn:P; [|discriminate].
      apply lookup_kOps_not_none in P.
      eapply IH; [|exact H].
      repeat split; simpl; try lia; try apply I1; auto.
    + destruct (Calc64.parse_i64 optarg) eqn:P; [|discriminate].
      apply parse_i64_range in P.
      eapply IH; [|exact H].
      repeat split; simpl; try lia; try apply I1; auto.
    + destruct (Calc64.parse_i64 optarg) eqn:P; [|discriminate].
      apply parse_i64_range in P.
      eapply IH; [|exact H].
      repeat split; simpl; try lia; try apply I1; auto.
Qed.

Lemma resolves64_inv m prog opts c :
  Calc64.resolves m prog opts c -> Calc64.invariant c.
Proof.
  apply parse64_inv. repeat split; simpl; try lia; congruence.
Qed.

Lemma loop32_inv lb prog opts : forall l t l',
  Calc32.invariant l ->
  Calc32.getopt_loop lb l prog opts = (t, inl l') -> Calc32.invariant l'.
Proof.
  induction opts as [|o rest IH]; intros l t l' I H; simpl in H.
  - inversion H; subst; exact I.
  - destruct I as [I1 [I2 I3]]. destruct o; simpl in H; try discriminate.
    + destruct (Calc32.parse_operation optarg) eqn:P; [|discriminate].
      apply lookup_kOps_not_none in P.
      eapply IH; [|exact H].
      repeat split; simpl; try lia; try apply I1; auto.
    + destruct (Calc32.parse_int lb optarg) eqn:P; [|discriminate].
      apply parse_int_range in P.
      eapply IH; [|exact H].
      repeat split; simpl; try lia; try apply I1; auto.
    + destruct (Calc32.parse_int lb optarg) eqn:P; [|discriminate].
      apply parse_int_range in P.
      eapply IH; [|exact H].
      repeat split; simpl; try lia; try apply I1; auto.
Qed.

Lemma resolves32_inv lb prog opts l :
  Calc32.resolves lb prog opts l -> Calc32.invariant l.
Proof.
  apply loop32_inv. repeat split; simpl; try lia; congruence.
Qed.

(** ** Runs of resolved requests *)

Ltac resolved64 H :=
  unfold Calc64.main, Calc64.run; unfold Calc64.resolves in H; rewrite H;
  clear H.

Ltac resolved32 H :=
  unfold Calc32.main; unfold Calc32.resolves in H; rewrite H; clear H.

Ltac flags W :=
  repeat match type of W with
         | (_ && _)%bool = true => let W' := fresh W in
                                   apply andb_true_iff in W as [W W']
         end.

Lemma domain64 m prog opts c :
  Calc64.resolves m prog opts c -> Calc64.well_formed c = true ->
  (Calc64.op c = operation.pow -> Calc64.b c < 0 ->
   Calc64.main m prog opts
   = ([Error "Error: pow: domain error (b must be >= 0)"], 2)) /\
  (Calc64.op c = operation.fact -> Calc64.a c < 0 ->
   Calc64.main m prog opts
   = ([Error "Error: fact: domain error (a must be >= 0)"], 2)).
Proof.
  intros H W. resolved64 H. destruct c as [o ho a ha b hb r].
  unfold Calc64.well_formed in W; simpl in W. flags W.
  split; simpl; intros -> N; apply Z.ltb_lt in N;
    apply eqb_prop in W0; simpl in W0; subst;
    unfold Calc64.check; simpl; rewrite N; reflexivity.
Qed.

Lemma domain32 lb m prog opts l :
  Calc32.resolves lb prog opts l -> Calc32.well_formed l = true ->
  (Calc32.op l = operation.pow -> Calc32.b l < 0 ->
   Calc32.main lb m prog opts
   = ([Error "Error: pow: domain error (b must be >= 0)"], 2)) /\
  (Calc32.op l = operation.fact -> Calc32.a l < 0 ->
   Calc32.main lb m prog opts
   = ([Error "Error: fact: domain error (a must be >= 0)"], 2)).
Proof.
  intros H W. resolved32 H. destruct l as [a b ha hb o ho].
  unfold Calc32.well_formed in W; simpl in W. flags W.
  split; simpl; intros -> N; apply Z.ltb_lt in N;
    apply eqb_prop in W0; simpl in W0; subst;
    simpl; rewrite N; reflexivity.
Qed.

(** After the loop: what [run] does with the context it left. *)
Lemma run64_resolved m prog opts c :
  Calc64.resolves m prog opts c ->
  Calc64.main m prog opts =
  bind (Calc64.check c prog) (fun rc =>
    if negb (exit_code.is_ok rc) then ret (exit_code.to_int rc) else
    bind (Calc64.calc m c) (fun x => match x with (rc, c) =>
      if negb (exit_code.is_ok rc) then ret (exit_code.to_int rc) else
      bind (Calc64.print_result (Calc64.r c)) (fun rc =>
        ret (exit_code.to_int rc)) end)).
Proof.
  intros H. unfold Calc64.main, Calc64.run. unfold Calc64.resolves in H.
  rewrite H, bind_nil. reflexivity.
Qed.

(** When the loop stops early, so does the program, with the loop's
    output and code. *)
Lemma run64_stopped m prog opts t rc c :
  Calc64.parse (Calc64.context_init m) prog opts = (t, (rc, c)) ->
  rc <> exit_code.ok ->
  Calc64.main m prog opts = (t, exit_code.to_int rc).
Proof.
  intros H N. unfold Calc64.main, Calc64.run. rewrite H.
  destruct rc; [congruence| |]; simpl; rewrite List.app_nil_r; reflexivity.
Qed.

Ltac crunch64 :=
  repeat first
    [ progress simpl
    | match goal with
      | |- context [Z.ltb ?x 0] => destruct (Z.ltb_spec x 0)
      | |- context [Calc64.mathlib.error ?r] =>
          destruct (Calc64.mathlib.error r)
      | |- context [Calc64.mathlib.kind ?r] =>
          destruct (Calc64.mathlib.kind r)
      end ].

Lemma usage_quiet64 m prog opts :
  result (Calc64.main m prog opts) = 1 ->
  existsb noisy (trace (Calc64.main m prog opts)) = false.
Proof.
  destruct (Calc64.parse (Calc64.context_init m) prog opts) as [t [rc c]] eqn:P.
  destruct rc.
  - assert (t = []) as -> by (eapply parse64_ok_silent; eauto).
    rewrite (run64_resolved m prog opts c P).
    destruct c as [o ho a ha b hb r]. unfold Calc64.check, Calc64.calc, Calc64.print_result,
      Calc64.print_math_err.
    destruct ho, ha, hb, o; crunch64; auto; discriminate.
  - rewrite (run64_stopped _ _ _ _ _ _ P) by discriminate. intros _.
    pose proof (parse64_quiet prog opts (Calc64.context_init m)) as Q.
    rewrite P in Q. exact Q.
  - rewrite (run64_stopped _ _ _ _ _ _ P) by discriminate. discriminate.
Qed.

(** After the loop of the second program. *)
Lemma main32_resolved lb m prog opts l :
  Calc32.resolves lb prog opts l ->
  Calc32.main lb m prog opts =
  if negb (Calc32.have_op l) || negb (Calc32.have_a l) then
    bind (emit (Error "Error: missing required arguments")) (fun _ =>
    bind (Calc32.print_help prog) (fun _ => ret (exit_code.to_int exit_code.usage)))
  else if negb (Calc32.needs_b (Calc32.op l)) && Calc32.have_b l then
    bind (emit (Error "Error: useless -b for this operation")) (fun _ =>
    bind (Calc32.print_help prog) (fun _ => ret (exit_code.to_int exit_code.usage)))
  else if Calc32.needs_b (Calc32.op l) && negb (Calc32.have_b l) then
    bind (emit (Error "Error: missing -b for this operation")) (fun _ =>
    bind (Calc32.print_help prog) (fun _ => ret (exit_code.to_int exit_code.usage)))
  else if operation.eqb (Calc32.op l) operation.pow && (Calc32.b l <? 0)%Z then
    bind (emit (Error "Error: pow: domain error (b must be >= 0)")) (fun _ =>
    ret (exit_code.to_int exit_code.math))
  else Calc32.run_operation m (Calc32.op l) (Calc32.a l) (Calc32.b l).
Proof.
  intros H. unfold Calc32.main. unfold Calc32.resolves in H.
  rewrite H, bind_nil. reflexivity.
Qed.

Lemma main32_stopped lb m prog opts t n :
  Calc32.getopt_loop lb Calc32.locals_init prog opts = (t, inr n) ->
  Calc32.main lb m prog opts = (t, n).
Proof.
  intros H. unfold Calc32.main. rewrite H. simpl.
  rewrite List.app_nil_r. reflexivity.
Qed.

Ltac crunch32 :=
  repeat first
    [ progress simpl
    | match goal with
      | |- context [Z.ltb ?x 0] => destruct (Z.ltb_spec x 0)
      | |- context [Calc32.mathlib.error ?r] =>
          destruct (Calc32.mathlib.error r)
      end ].

Lemma usage_quiet32 lb m prog opts :
  result (Calc32.main lb m prog opts) = 1 ->
  existsb noisy (trace (Calc32.main lb m prog opts)) = false.
Proof.
  destruct (Calc32.getopt_loop lb Calc32.locals_init prog opts)
    as [t [l|n]] eqn:P.
  - assert (t = []) as -> by (eapply loop32_ok_silent; eauto).
    rewrite (main32_resolved lb m prog opts l P).
    destruct l as [a b ha hb o ho].
    unfold Calc32.run_operation, Calc32.print_math_error.
    destruct ho, ha, hb, o; crunch32; auto; discriminate.
  - rewrite (main32_stopped _ _ _ _ _ _ P). intros _.
    pose proof (loop32_quiet lb prog opts Calc32.locals_init) as Q.
    rewrite P in Q. exact Q.
Qed.

(** ** Division by zero *)

Lemma div_zero64 m prog opts c :
  Spec.div0_checked64 m ->
  Calc64.resolves m prog opts c -> Calc64.well_formed c = true ->
  Calc64.op c = operation.div -> Calc64.b c = 0 ->
  Calc64.main m prog opts
  = ([Engine (call_div (Calc64.a c) 0); Error "Error: calc: division by zero"],
     2).
Proof.
  intros D H W O B. rewrite (run64_resolved _ _ _ _ H).
  destruct c as [o ho a ha b hb r]. unfold Calc64.well_formed in W.
  simpl in *. subst o b. flags W. apply eqb_prop in W0. simpl in W0. subst.
  unfold Calc64.check, Calc64.calc, Calc64.print_result. simpl.
  rewrite (D a). reflexivity.
Qed.

Lemma div_zero32 lb m prog opts l :
  Spec.div0_checked32 m ->
  Calc32.resolves lb prog opts l -> Calc32.well_formed l = true ->
  Calc32.op l = operation.div -> Calc32.b l = 0 ->
  Calc32.main lb m prog opts
  = ([Engine (call_div (Calc32.a l) 0); Error "Error: div: division by zero"],
     2).
Proof.
  intros D H W O B. rewrite (main32_resolved _ _ _ _ _ H).
  destruct l as [a b ha hb o ho]. unfold Calc32.well_formed in W.
  simpl in *. subst o b. flags W. apply eqb_prop in W0. simpl in W0. subst.
  simpl. rewrite (D a). reflexivity.
Qed.

Lemma checked64_div0 : Spec.div0_checked64 Spec.checked64.
Proof. intros a. reflexivity. Qed.

Lemma checked32_div0 : Spec.div0_checked32 Spec.checked32.
Proof. intros a. reflexivity. Qed.

(** ** Arity *)

Lemma arity64 m prog opts c :
  Calc64.resolves m prog opts c ->
  (Calc64.op c = operation.fact -> Calc64.have_a c = true ->
   Calc64.have_b c = true ->
   Calc64.main m prog opts
   = ([Error "Error: useless -b for this op"; Help prog], 1)) /\
  (In (Calc64.op c) [operation.add; operation.sub; operation.mul;
                     operation.div; operation.pow] ->
   Calc64.have_b c = false ->
   Calc64.main m prog opts
   = ([Error (if Calc64.have_a c then "Error: missing -b for this op"
              else "Error: missing -o or -a"); Help prog], 1)).
Proof.
  intros H. pose proof (resolves64_inv _ _ _ _ H) as [I _].
  rewrite (run64_resolved _ _ _ _ H).
  destruct c as [o ho a ha b hb r]. simpl in *.
  unfold Calc64.check. split.
  - intros -> -> ->. rewrite (proj2 I) by discriminate. reflexivity.
  - intros O ->.
    repeat (destruct O as [<- | O];
            [rewrite (proj2 I) by discriminate; destruct ha; reflexivity|]).
    destruct O.
Qed.

Lemma arity32 lb m prog opts l :
  Calc32.resolves lb prog opts l ->
  (Calc32.op l = operation.fact -> Calc32.have_a l = true ->
   Calc32.have_b l = true ->
   Calc32.main lb m prog opts
   = ([Error "Error: useless -b for this operation"; Help prog], 1)) /\
  (In (Calc32.op l) [operation.add; operation.sub; operation.mul;
                     operation.div; operation.pow] ->
   Calc32.have_b l = false ->
   Calc32.main lb m prog opts
   = ([Error (if Calc32.have_a l then "Error: missing -b for this operation"
              else "Error: missing required arguments"); Help prog], 1)).
Proof.
  intros H. pose proof (resolves32_inv _ _ _ _ H) as [I _].
  rewrite (main32_resolved _ _ _ _ _ H).
  destruct l as [a b ha hb o ho]. simpl in *.
  split.
  - intros -> -> ->. rewrite (proj2 I) by discriminate. reflexivity.
  - intros O ->.
    repeat (destruct O as [<- | O];
            [rewrite (proj2 I) by discriminate; destruct ha; reflexivity|]).
    destruct O.
Qed.

(** ** Help *)

Lemma help64 m prog pre post c :
  Calc64.resolves m prog pre c ->
  Calc64.main m prog (pre ++ opt_h :: post) = ([Help prog], 1).
Proof.
  intros H. unfold Calc64.main, Calc64.run.
  rewrite (parse64_app _ _ _ _ _ H). reflexivity.
Qed.

Lemma help32 lb m prog pre post l :
  Calc32.resolves lb prog pre l ->
  Calc32.main lb m prog (pre ++ opt_h :: post) = ([Help prog], 0).
Proof.
  intros H. unfold Calc32.main.
  rewrite (loop32_app _ _ _ _ _ _ H). reflexivity.
Qed.

(** ** Repeated options *)

Lemma parse64_prefix prog pre post : forall c0 t c,
  Calc64.parse c0 prog (pre ++ post) = (t, (exit_code.ok, c)) ->
  exists c1, Calc64.parse c0 prog pre = ([], (exit_code.ok, c1)) /\
             Calc64.parse c1 prog post = (t, (exit_code.ok, c)).
Proof.
  induction pre as [|o rest IH]; intros c0 t c H; simpl in H.
  - exists c0; auto.
  - destruct o; simpl in *; try discriminate.
    + destruct (Calc64.parse_op optarg); [eauto | discriminate].
    + destruct (Calc64.parse_i64 optarg); [eauto | discriminate].
    + destruct (Calc64.parse_i64 optarg); [eauto | discriminate].
Qed.

(** Options other than [-o] (or [-a], or [-b]) leave the operation (or
    that operand) as it was. *)
Lemma parse64_keeps prog post : forall c1 t c,
  Calc64.parse c1 prog post = (t, (exit_code.ok, c)) ->
  (existsb is_opt_o post = false ->
   Calc64.op c = Calc64.op c1 /\ Calc64.have_op c = Calc64.have_op c1) /\
  (existsb is_opt_a post = false ->
   Calc64.a c = Calc64.a c1 /\ Calc64.have_a c = Calc64.have_a c1) /\
  (existsb is_opt_b post = false ->
   Calc64.b c = Calc64.b c1 /\ Calc64.have_b c = Calc64.have_b c1).
Proof.
  induction post as [|o rest IH]; intros c1 t c H; simpl in H.
  - inversion H; subst; auto.
  - destruct o; simpl in H; try discriminate.
    + destruct (Calc64.parse_op optarg); [|discriminate].
      destruct (IH _ _ _ H) as [Ho [Ha Hb]]. simpl in Ho, Ha, Hb.
      split; [|split]; intros E; simpl in E; try discriminate; auto.
    + destruct (Calc64.parse_i64 optarg); [|discriminate].
      destruct (IH _ _ _ H) as [Ho [Ha Hb]]. simpl in Ho, Ha, Hb.
      split; [|split]; intros E; simpl in E; try discriminate; auto.
    + destruct (Calc64.parse_i64 optarg); [|discriminate].
      destruct (IH _ _ _ H) as [Ho [Ha Hb]]. simpl in Ho, Ha, Hb.
      split; [|split]; intros E; simpl in E; try discriminate; auto.
Qed.

Lemma repeated64 m prog pre s post :
  (forall c, Calc64.resolves m prog (pre ++ opt_o s :: post) c ->
     existsb is_opt_o post = false ->
     Calc64.parse_op s = Some (Calc64.op c) /\ Calc64.have_op c = true) /\
  (forall c, Calc64.resolves m prog (pre ++ opt_a s :: post) c ->
     existsb is_opt_a post = false ->
     Calc64.parse_i64 s = Some (Calc64.a c) /\ Calc64.have_a c = true) /\
  (forall c, Calc64.resolves m prog (pre ++ opt_b s :: post) c ->
     existsb is_opt_b post = false ->
     Calc64.parse_i64 s = Some (Calc64.b c) /\ Calc64.have_b c = true) /\
  (forall c, Calc64.resolves m prog pre c -> Calc64.parse_op s = None ->
     Calc64.main m prog (pre ++ opt_o s :: post)
     = ([Error ("Error: unknown operation '" ++ s ++ "'")], 1)) /\
  (forall c, Calc64.resolves m prog pre c -> Calc64.parse_i64 s = None ->
     Calc64.main m prog (pre ++ opt_a s :: post)
     = ([Error ("Error: invalid integer for -a: '" ++ s ++ "'")], 1)) /\
  (forall c, Calc64.resolves m prog pre c -> Calc64.parse_i64 s = None ->
     Calc64.main m prog (pre ++ opt_b s :: post)
     = ([Error ("Error: invalid integer for -b: '" ++ s ++ "'")], 1)).
Proof.
  split; [|split; [|split]].
  1-3: intros c H E; apply parse64_prefix in H as [c1 [_ H]]; simpl in H.
  - destruct (Calc64.parse_op s) as [o|]; [|discriminate].
    apply parse64_keeps in H as [Ho _]. destruct (Ho E) as [-> ->].
    auto.
  - destruct (Calc64.parse_i64 s) as [v|]; [|discriminate].
    apply parse64_keeps in H as [_ [Ha _]]. destruct (Ha E) as [-> ->].
    auto.
  - destruct (Calc64.parse_i64 s) as [v|]; [|discriminate].
    apply parse64_keeps in H as [_ [_ Hb]]. destruct (Hb E) as [-> ->].
    auto.
  - repeat split; intros c H E; unfold Calc64.main, Calc64.run;
      rewrite (parse64_app _ _ _ _ _ H); simpl; rewrite E; reflexivity.
Qed.

Lemma loop32_prefix lb prog pre post : forall l0 t l,
  Calc32.getopt_loop lb l0 prog (pre ++ post) = (t, inl l) ->
  exists l1, Calc32.getopt_loop lb l0 prog pre = ([], inl l1) /\
             Calc32.getopt_loop lb l1 prog post = (t, inl l).
Proof.
  induction pre as [|o rest IH]; intros l0 t l H; simpl in H.
  - exists l0; auto.
  - destruct o; simpl in *; try discriminate.
    + destruct (Calc32.parse_operation optarg); [eauto | discriminate].
    + destruct (Calc32.parse_int lb optarg); [eauto | discriminate].
    + destruct (Calc32.parse_int lb optarg); [eauto | discriminate].
Qed.

Lemma loop32_keeps lb prog post : forall l1 t l,
  Calc32.getopt_loop lb l1 prog post = (t, inl l) ->
  (existsb is_opt_o post = false ->
   Calc32.op l = Calc32.op l1 /\ Calc32.have_op l = Calc32.have_op l1) /\
  (existsb is_opt_a post = false ->
   Calc32.a l = Calc32.a l1 /\ Calc32.have_a l = Calc32.have_a l1) /\
  (existsb is_opt_b post = false ->
   Calc32.b l = Calc32.b l1 /\ Calc32.have_b l = Calc32.have_b l1).
Proof.
  induction post as [|o rest IH]; intros l1 t l H; simpl in H.
  - inversion H; subst; auto.
  - destruct o; simpl in H; try discriminate.
    + destruct (Calc32.parse_operation optarg); [|discriminate].
      destruct (IH _ _ _ H) as [Ho [Ha Hb]]. simpl in Ho, Ha, Hb.
      split; [|split]; intros E; simpl in E; try discriminate; auto.
    + destruct (Calc32.parse_int lb optarg); [|discriminate].
      destruct (IH _ _ _ H) as [Ho [Ha Hb]]. simpl in Ho, Ha, Hb.
      split; [|split]; intros E; simpl in E; try discriminate; auto.
    + destruct (Calc32.parse_int lb optarg); [|discriminate].
      destruct (IH _ _ _ H) as [Ho [Ha Hb]]. simpl in Ho, Ha, Hb.
      split; [|split]; intros E; simpl in E; try discriminate; auto.
Qed.

Lemma repeated32 lb m prog pre s post :
  (forall l, Calc32.resolves lb prog (pre ++ opt_o s :: post) l ->
     existsb is_opt_o post = false ->
     Calc32.parse_operation s = Some (Calc32.op l) /\
     Calc32.have_op l = true) /\
  (forall l, Calc32.resolves lb prog (pre ++ opt_a s :: post) l ->
     existsb is_opt_a post = false ->
     Calc32.parse_int lb s = Some (Calc32.a l) /\ Calc32.have_a l = true) /\
  (forall l, Calc32.resolves lb prog (pre ++ opt_b s :: post) l ->
     existsb is_opt_b post = false ->
     Calc32.parse_int lb s = Some (Calc32.b l) /\ Calc32.have_b l = true) /\
  (forall l, Calc32.resolves lb prog pre l ->
     Calc32.parse_operation s = None ->
     Calc32.main lb m prog (pre ++ opt_o s :: post)
     = ([Error ("Error: unknown operation '" ++ s ++ "'")], 1)) /\
  (forall l, Calc32.resolves lb prog pre l -> Calc32.parse_int lb s = None ->
     Calc32.main lb m prog (pre ++ opt_a s :: post)
     = ([Error ("Error: invalid integer for -a: '" ++ s ++ "'")], 1)) /\
  (forall l, Calc32.resolves lb prog pre l -> Calc32.parse_int lb s = None ->
     Calc32.main lb m prog (pre ++ opt_b s :: post)
     = ([Error ("Error: invalid integer for -b: '" ++ s ++ "'")], 1)).
Proof.
  split; [|split; [|split]].
  1-3: intros l H E; apply loop32_prefix in H as [l1 [_ H]]; simpl in H.
  - destruct (Calc32.parse_operation s) as [o|]; [|discriminate].
    apply loop32_keeps in H as [Ho _]. destruct (Ho E) as [-> ->].
    auto.
  - destruct (Calc32.parse_int lb s) as [v|]; [|discriminate].
    apply loop32_keeps in H as [_ [Ha _]]. destruct (Ha E) as [-> ->].
    auto.
  - destruct (Calc32.parse_int lb s) as [v|]; [|discriminate].
    apply loop32_keeps in H as [_ [_ Hb]]. destruct (Hb E) as [-> ->].
    auto.
  - repeat split; intros l H E; unfold Calc32.main;
      rewrite (loop32_app _ _ _ _ _ _ H); simpl; rewrite E; reflexivity.
Qed.

(** ** What is printed, and what is passed to the library *)

Lemma quiet_no_result t f v :
  existsb noisy t = false -> ~ In (Result f v) t.
Proof.
  intros Q H. assert (existsb noisy t = true); [|congruence].
  apply existsb_exists. exists (Result f v); auto.
Qed.

Lemma quiet_no_engine t c :
  existsb noisy t = false -> ~ In (Engine c) t.
Proof.
  intros Q H. assert (existsb noisy t = true); [|congruence].
  apply existsb_exists. exists (Engine c); auto.
Qed.

(** The presenter of the first program follows the tag. *)
Lemma print_result_tagged res :
  Calc64.mathlib.error res = Calc64.mathlib.ok ->
  Calc64.print_result res
  = ([match Calc64.mathlib.kind res with
      | Calc64.mathlib.i64 => Result fmt_lld (Calc64.mathlib.value_i64 res)
      | Calc64.mathlib.u64 => Result fmt_llu (Calc64.mathlib.value_u64 res)
      end], exit_code.ok).
Proof.
  intros E. unfold Calc64.print_result. rewrite E. simpl.
  destruct (Calc64.mathlib.kind res); reflexivity.
Qed.

Lemma print_result_failed res :
  Calc64.mathlib.error res <> Calc64.mathlib.ok ->
  result (Calc64.print_result res) = exit_code.math /\
  existsb on_stdout (trace (Calc64.print_result res)) = false.
Proof.
  intros E. unfold Calc64.print_result, Calc64.print_math_err.
  destruct (Calc64.mathlib.error res); [congruence| | |]; auto.
Qed.

(** The result the library returned for the request [c]. *)
Lemma tagged64 m prog opts f v :
  In (Result f v) (trace (Calc64.main m prog opts)) ->
  exists c,
    Calc64.resolves m prog opts c /\
    let res := Calc64.r (snd (result (Calc64.calc m c))) in
    Calc64.mathlib.error res = Calc64.mathlib.ok /\
    match Calc64.mathlib.kind res with
    | Calc64.mathlib.i64 => f = fmt_lld /\ v = Calc64.mathlib.value_i64 res
    | Calc64.mathlib.u64 => f = fmt_llu /\ v = Calc64.mathlib.value_u64 res
    end.
Proof.
  destruct (Calc64.parse (Calc64.context_init m) prog opts) as [t [rc c]] eqn:P.
  destruct rc.
  - assert (t = []) as -> by (eapply parse64_ok_silent; eauto).
    rewrite (run64_resolved m prog opts c P). intros H. exists c.
    split; [exact P|]. revert H.
    destruct c as [o ho a ha b hb r].
    unfold Calc64.check, Calc64.calc, Calc64.print_result,
      Calc64.print_math_err.
    destruct ho, ha, hb, o; simpl;
      repeat first
        [ progress simpl
        | match goal with
          | |- context [Z.ltb ?x 0] => destruct (Z.ltb_spec x 0)
          | |- context [Calc64.mathlib.error ?r] =>
              destruct (Calc64.mathlib.error r) eqn:?
          | |- context [Calc64.mathlib.kind ?r] =>
              destruct (Calc64.mathlib.kind r) eqn:?
          end ];
      intros HIn;
      repeat match goal with
             | H : _ \/ _ |- _ => destruct H as [H|H]
             | H : False |- _ => destruct H
             | H : _ = Result _ _ |- _ => inversion H; clear H
             end;
      auto.
  - rewrite (run64_stopped _ _ _ _ _ _ P) by discriminate. intros H.
    exfalso. revert H. apply quiet_no_result.
    pose proof (parse64_quiet prog opts (Calc64.context_init m)) as Q.
    rewrite P in Q. exact Q.
  - rewrite (run64_stopped _ _ _ _ _ _ P) by discriminate. intros H.
    exfalso. revert H. apply quiet_no_result.
    pose proof (parse64_quiet prog opts (Calc64.context_init m)) as Q.
    rewrite P in Q. exact Q.
Qed.

Ltac cases_in HIn :=
  repeat match goal with
         | H : _ \/ _ |- _ => destruct H as [H|H]
         | H : False |- _ => destruct H
         | H : _ = Result _ _ |- _ => inversion H; clear H
         | H : _ = Engine _ |- _ => inversion H; clear H
         end.

Lemma to_u64_id x : 0 <= x <= 2 ^ 63 - 1 -> Calc64.to_u64 x = x.
Proof. intros H. unfold Calc64.to_u64. apply Z.mod_small. lia. Qed.

Lemma to_uint_id x : 0 <= x <= 2 ^ 31 - 1 -> Calc32.to_uint x = x.
Proof. intros H. unfold Calc32.to_uint. apply Z.mod_small. lia. Qed.

(** The first program calls [ml_pow] and [ml_fact] with the operands as
    the user gave them. *)
Lemma casts64 m prog opts :
  (forall x y, In (Engine (call_pow x y)) (trace (Calc64.main m prog opts)) ->
     exists c, Calc64.resolves m prog opts c /\
               Calc64.op c = operation.pow /\
               x = Calc64.a c /\ y = Calc64.b c /\ 0 <= Calc64.b c) /\
  (forall n, In (Engine (call_fact n)) (trace (Calc64.main m prog opts)) ->
     exists c, Calc64.resolves m prog opts c /\
               Calc64.op c = operation.fact /\
               n = Calc64.a c /\ 0 <= Calc64.a c).
Proof.
  destruct (Calc64.parse (Calc64.context_init m) prog opts) as [t [rc c]] eqn:P.
  assert (existsb noisy t = false) as Q.
  { pose proof (parse64_quiet prog opts (Calc64.context_init m)) as Q.
    rewrite P in Q. exact Q. }
  destruct rc.
  - assert (t = []) as -> by (eapply parse64_ok_silent; eauto).
    rewrite (run64_resolved m prog opts c P).
    pose proof (resolves64_inv _ _ _ _ P) as [_ [Ia Ib]].
    split; intros; exists c; (split; [exact P|]);
      match goal with H : In _ _ |- _ => revert H end;
      destruct c as [o ho a ha b hb r];
      unfold Calc64.check, Calc64.calc, Calc64.print_result,
        Calc64.print_math_err; simpl in Ia, Ib;
      destruct ho, ha, hb, o; crunch64; intros HIn; cases_in HIn;
      subst; repeat split; auto; try lia;
      first [apply to_u64_id | symmetry; apply to_u64_id]; lia.
  - rewrite (run64_stopped _ _ _ _ _ _ P) by discriminate.
    split; intros; exfalso; eapply quiet_no_engine; eauto.
  - rewrite (run64_stopped _ _ _ _ _ _ P) by discriminate.
    split; intros; exfalso; eapply quiet_no_engine; eauto.
Qed.

Lemma casts32 lb m prog opts :
  (forall x y,
     In (Engine (call_pow x y)) (trace (Calc32.main lb m prog opts)) ->
     exists l, Calc32.resolves lb prog opts l /\
               Calc32.op l = operation.pow /\
               x = Calc32.a l /\ y = Calc32.b l /\ 0 <= Calc32.b l) /\
  (forall n, In (Engine (call_fact n)) (trace (Calc32.main lb m prog opts)) ->
     exists l, Calc32.resolves lb prog opts l /\
               Calc32.op l = operation.fact /\
               n = Calc32.a l /\ 0 <= Calc32.a l).
Proof.
  destruct (Calc32.getopt_loop lb Calc32.locals_init prog opts)
    as [t [l|n]] eqn:P.
  - assert (t = []) as -> by (eapply loop32_ok_silent; eauto).
    rewrite (main32_resolved lb m prog opts l P).
    pose proof (resolves32_inv _ _ _ _ P) as [_ [Ia Ib]].
    split; intros; exists l; (split; [exact P|]);
      match goal with H : In _ _ |- _ => revert H end;
      destruct l as [a b ha hb o ho];
      unfold Calc32.run_operation, Calc32.print_math_error; simpl in Ia, Ib;
      destruct ho, ha, hb, o; crunch32; intros HIn; cases_in HIn;
      subst; repeat split; auto; try lia;
      first [apply to_uint_id | symmetry; apply to_uint_id]; lia.
  - rewrite (main32_stopped _ _ _ _ _ _ P).
    assert (existsb noisy t = false) as Q.
    { pose proof (loop32_quiet lb prog opts Calc32.locals_init) as Q.
      rewrite P in Q. exact Q. }
    split; intros; exfalso; eapply quiet_no_engine; eauto.
Qed.

(** The second program prints every result with [%d]. *)
Lemma printed32 lb m prog opts f v :
  In (Result f v) (trace (Calc32.main lb m prog opts)) -> f = fmt_d.
Proof.
  destruct (Calc32.getopt_loop lb Calc32.locals_init prog opts)
    as [t [l|n]] eqn:P.
  - assert (t = []) as -> by (eapply loop32_ok_silent; eauto).
    rewrite (main32_resolved lb m prog opts l P).
    destruct l as [a b ha hb o ho].
    unfold Calc32.run_operation, Calc32.print_math_error.
    destruct ho, ha, hb, o; crunch32; intros HIn; cases_in HIn; auto.
  - rewrite (main32_stopped _ _ _ _ _ _ P). intros H. exfalso. revert H.
    apply quiet_no_result.
    pose proof (loop32_quiet lb prog opts Calc32.locals_init) as Q.
    rewrite P in Q. exact Q.
Qed.

(** ** Errors of the library *)

(** The first program reports an overflow the library returns. *)
Lemma overflow64 m prog opts c :
  Calc64.resolves m prog opts c ->
  result (Calc64.check c prog) = exit_code.ok ->
  Calc64.mathlib.error (Calc64.r (snd (result (Calc64.calc m c))))
  = Calc64.mathlib.overflow ->
  Calc64.main m prog opts
  = ((trace (Calc64.calc m c) ++ [Error "Error: calc: overflow"])%list, 2).
Proof.
  intros H. rewrite (run64_resolved _ _ _ _ H).
  pose proof (resolves64_inv _ _ _ _ H) as [I _].
  destruct c as [o ho a ha b hb r]. simpl in I.
  unfold Calc64.check, Calc64.calc, Calc64.print_result,
    Calc64.print_math_err.
  destruct ho, ha, hb, o; simpl; try discriminate;
    try (exfalso; apply (proj1 I); reflexivity);
    repeat match goal with
           | |- context [Z.ltb ?x 0] => destruct (Z.ltb_spec x 0); simpl
           end;
    try discriminate; intros _ E; rewrite E; reflexivity.
Qed.

(** The second program prints what [ml_add], [ml_sub], [ml_mul],
    [ml_pow] and [ml_fact] return without a look at [error]. *)
Lemma unchecked32 m a b :
  Calc32.run_operation m operation.add a b
  = ([Engine (call_add a b);
      Result fmt_d (Calc32.mathlib.value (Calc32.mathlib.ml_add m a b))], 0) /\
  Calc32.run_operation m operation.sub a b
  = ([Engine (call_sub a b);
      Result fmt_d (Calc32.mathlib.value (Calc32.mathlib.ml_sub m a b))], 0) /\
  Calc32.run_operation m operation.mul a b
  = ([Engine (call_mul a b);
      Result fmt_d (Calc32.mathlib.value (Calc32.mathlib.ml_mul m a b))], 0) /\
  (0 <= b ->
   Calc32.run_operation m operation.pow a b
   = ([Engine (call_pow a (Calc32.to_uint b));
       Result fmt_d (Calc32.mathlib.value
                       (Calc32.mathlib.ml_pow m a (Calc32.to_uint b)))], 0)) /\
  (0 <= a ->
   Calc32.run_operation m operation.fact a b
   = ([Engine (call_fact (Calc32.to_uint a));
       Result fmt_d (Calc32.mathlib.value
                       (Calc32.mathlib.ml_fact m (Calc32.to_uint a)))], 0)).
Proof.
  repeat split; try reflexivity; intros H; simpl;
    match goal with |- context [Z.ltb ?x 0] => destruct (Z.ltb_spec x 0) end;
    try lia; reflexivity.
Qed.

(** ** The library of the specification under the first program *)

(** A representable signed result is stored and read back unchanged. *)
Lemma signed64_value v :
  - 2 ^ 63 <= v <= 2 ^ 63 - 1 ->
  Calc64.mathlib.error (Spec.signed64 v) = Calc64.mathlib.ok /\
  Calc64.mathlib.kind (Spec.signed64 v) = Calc64.mathlib.i64 /\
  Calc64.mathlib.value_i64 (Spec.signed64 v) = v.
Proof.
  intros H. unfold Spec.signed64, Spec.in_range.
  destruct (Z.leb_spec (- 2 ^ 63) v); [|lia].
  destruct (Z.leb_spec v (2 ^ 63 - 1)); [|lia].
  repeat split. unfold Calc64.mathlib.value_i64. simpl.
  rewrite Zplus_mod_idemp_l, Z.mod_small; lia.
Qed.

(** The scenarios of section 8 of the specification. *)
Lemma scenarios64 :
  Calc64.main Spec.checked64 "calc" [opt_o "add"; opt_a "2"; opt_b "3"]
  = ([Engine (call_add 2 3); Result fmt_lld 5], 0) /\
  Calc64.main Spec.checked64 "calc" [opt_o "div"; opt_a "7"; opt_b "0"]
  = ([Engine (call_div 7 0); Error "Error: calc: division by zero"], 2) /\
  Calc64.main Spec.checked64 "calc" [opt_o "pow"; opt_a "2"; opt_b "-1"]
  = ([Error "Error: pow: domain error (b must be >= 0)"], 2) /\
  Calc64.main Spec.checked64 "calc" [opt_o "fact"; opt_a "5"]
  = ([Engine (call_fact 5); Result fmt_llu 120], 0) /\
  Calc64.main Spec.checked64 "calc"
    [opt_o "mul"; opt_a "9223372036854775807"; opt_b "2"]
  = ([Engine (call_mul 9223372036854775807 2); Error "Error: calc: overflow"],
     2) /\
  Calc64.main Spec.checked64 "calc" [opt_o "xor"]
  = ([Error "Error: unknown operation 'xor'"], 1).
Proof. repeat split. Qed.

(** Options after the same prefix: what differs after it is all that
    can differ. *)
Lemma parse64_under prog pre : forall r1 r2 c,
  (forall c', Calc64.parse c' prog r1 = Calc64.parse c' prog r2) ->
  Calc64.parse c prog (pre ++ r1) = Calc64.parse c prog (pre ++ r2).
Proof.
  induction pre as [|o rest IH]; intros r1 r2 c E; simpl; auto.
  destruct o; auto.
  - destruct (Calc64.parse_op optarg); auto.
  - destruct (Calc64.parse_i64 optarg); auto.
  - destruct (Calc64.parse_i64 optarg); auto.
Qed.

Lemma loop32_under lb prog pre : forall r1 r2 l,
  (forall l', Calc32.getopt_loop lb l' prog r1
              = Calc32.getopt_loop lb l' prog r2) ->
  Calc32.getopt_loop lb l prog (pre ++ r1)
  = Calc32.getopt_loop lb l prog (pre ++ r2).
Proof.
  induction pre as [|o rest IH]; intros r1 r2 l E; simpl; auto.
  destruct o; auto.
  - destruct (Calc32.parse_operation optarg); auto.
  - destruct (Calc32.parse_int lb optarg); auto.
  - destruct (Calc32.parse_int lb optarg); auto.
Qed.

(** ** Repeated options: what is stored is what is used *)





(** ** Repeated options: a string that does not parse *)











(** * The claims *)

(** C1.  The specification wants every result that exceeds the
    representable range reported as an overflow with exit code 2 and
    never printed.  The first program does so ([overflow64]).  The
    second does not: for [-o add -a 2147483647 -b 1], whose sum does not
    fit [int], it calls [ml_add], prints the [value] of what comes back
    and exits with 0, whatever the library is and whatever [error] it
    set; with the checked library of the specification the error is set
    and a 0 is printed. *)
Theorem sum_overflow_printed (m : Calc32.mathlib.lib) (prog : string) :
  Spec.in_range Libc.INT_MIN Libc.INT_MAX
    (Spec.exact operation.add 2147483647 1) = false /\
  Calc32.main 64 m prog [opt_o "add"; opt_a "2147483647"; opt_b "1"]
  = ([Engine (call_add 2147483647 1);
      Result fmt_d
        (Calc32.mathlib.value (Calc32.mathlib.ml_add m 2147483647 1))], 0) /\
  Calc32.mathlib.error (Calc32.mathlib.ml_add Spec.checked32 2147483647 1)
  = Calc32.mathlib.other /\
  Calc32.main 64 Spec.checked32 prog
    [opt_o "add"; opt_a "2147483647"; opt_b "1"]
  = ([Engine (call_add 2147483647 1); Result fmt_d 0], 0).
Proof. repeat split. Qed.

(** C2.  With a library that answers a zero divisor by its
    divide-by-zero error, a [div] request whose divisor is 0 makes
    either program call [ml_div], print the division-by-zero line on
    standard error and exit with 2, whatever the dividend; nothing goes
    to standard output. *)
Theorem div_by_zero_reported
    (m64 : Calc64.mathlib.lib) (m32 : Calc32.mathlib.lib) (long_bits : Z)
    (prog : string) (opts : list getopt_ret)
    (c : Calc64.context) (l : Calc32.locals) :
  (Spec.div0_checked64 m64 ->
   Calc64.resolves m64 prog opts c -> Calc64.well_formed c = true ->
   Calc64.op c = operation.div -> Calc64.b c = 0 ->
   Calc64.main m64 prog opts
   = ([Engine (call_div (Calc64.a c) 0);
       Error "Error: calc: division by zero"], 2)) /\
  (Spec.div0_checked32 m32 ->
   Calc32.resolves long_bits prog opts l -> Calc32.well_formed l = true ->
   Calc32.op l = operation.div -> Calc32.b l = 0 ->
   Calc32.main long_bits m32 prog opts
   = ([Engine (call_div (Calc32.a l) 0);
       Error "Error: div: division by zero"], 2)).
Proof.
  split; intros; [apply div_zero64 | apply div_zero32]; assumption.
Qed.

Lemma div_by_zero_reported_witness :
  Calc64.main Spec.checked64 "calc" [opt_o "div"; opt_a "-7"; opt_b "0"]
  = ([Engine (call_div (-7) 0); Error "Error: calc: division by zero"], 2) /\
  Calc32.main 64 Spec.checked32 "calc" [opt_o "div"; opt_a "-7"; opt_b "0"]
  = ([Engine (call_div (-7) 0); Error "Error: div: division by zero"], 2).
Proof.
  split.
  - apply (proj1 (div_by_zero_reported Spec.checked64 Spec.checked32 64 "calc"
                    [opt_o "div"; opt_a "-7"; opt_b "0"]
                    (Calc64.mk_context operation.div true (-7) true 0 true
                       (Calc64.mathlib.ml_result_init Spec.checked64))
                    Calc32.locals_init));
      [intros a; reflexivity | reflexivity ..].
  - apply (proj2 (div_by_zero_reported Spec.checked64 Spec.checked32 64 "calc"
                    [opt_o "div"; opt_a "-7"; opt_b "0"]
                    (Calc64.context_init Spec.checked64)
                    (Calc32.mk_locals (-7) 0 true true operation.div true)));
      [intros a; reflexivity | reflexivity ..].
Defined.

(** C3.  A request that passes the usage tests with operation [pow] and
    a negative B, or operation [fact] and a negative A, makes either
    program print the domain error on standard error and exit with 2,
    not 1; the run consists of that line alone, so no function of the
    library was called. *)
Theorem domain_error_before_engine
    (m64 : Calc64.mathlib.lib) (m32 : Calc32.mathlib.lib) (long_bits : Z)
    (prog : string) (opts : list getopt_ret)
    (c : Calc64.context) (l : Calc32.locals) :
  (Calc64.resolves m64 prog opts c -> Calc64.well_formed c = true ->
   (Calc64.op c = operation.pow -> Calc64.b c < 0 ->
    Calc64.main m64 prog opts
    = ([Error "Error: pow: domain error (b must be >= 0)"], 2)) /\
   (Calc64.op c = operation.fact -> Calc64.a c < 0 ->
    Calc64.main m64 prog opts
    = ([Error "Error: fact: domain error (a must be >= 0)"], 2))) /\
  (Calc32.resolves long_bits prog opts l -> Calc32.well_formed l = true ->
   (Calc32.op l = operation.pow -> Calc32.b l < 0 ->
    Calc32.main long_bits m32 prog opts
    = ([Error "Error: pow: domain error (b must be >= 0)"], 2)) /\
   (Calc32.op l = operation.fact -> Calc32.a l < 0 ->
    Calc32.main long_bits m32 prog opts
    = ([Error "Error: fact: domain error (a must be >= 0)"], 2))).
Proof.
  split; intros; [apply (domain64 _ _ _ c) | apply (domain32 _ _ _ _ l)];
    assumption.
Qed.

Lemma domain_error_before_engine_witness :
  Calc64.main Spec.checked64 "calc" [opt_o "pow"; opt_a "2"; opt_b "-1"]
  = ([Error "Error: pow: domain error (b must be >= 0)"], 2) /\
  Calc32.main 64 Spec.checked32 "calc" [opt_o "fact"; opt_a "-3"]
  = ([Error "Error: fact: domain error (a must be >= 0)"], 2).
Proof.
  split.
  - apply (proj1 (domain_error_before_engine Spec.checked64 Spec.checked32 64
                    "calc" [opt_o "pow"; opt_a "2"; opt_b "-1"]
                    (Calc64.mk_context operation.pow true 2 true (-1) true
                       (Calc64.mathlib.ml_result_init Spec.checked64))
                    Calc32.locals_init));
      reflexivity.
  - apply (proj2 (domain_error_before_engine Spec.checked64 Spec.checked32 64
                    "calc" [opt_o "fact"; opt_a "-3"]
                    (Calc64.context_init Spec.checked64)
                    (Calc32.mk_locals (-3) 0 true false operation.fact true)));
      reflexivity.
Defined.

(** C4, as amended.  When the option loop went through: [-b] given
    together with [-a] for [fact] is the unexpected-argument failure,
    and no [-b] with [add], [sub], [mul], [div] or [pow] is a
    missing-argument failure, the one for [-b] when [-a] was given and
    the one for [-o] or [-a] when it was not; each prints its line on
    standard error, then the usage text, and exits with the usage code
    1, not the math code 2. *)
Theorem arity_usage_failure
    (m64 : Calc64.mathlib.lib) (m32 : Calc32.mathlib.lib) (long_bits : Z)
    (prog : string) (opts : list getopt_ret)
    (c : Calc64.context) (l : Calc32.locals) :
  (Calc64.resolves m64 prog opts c ->
   (Calc64.op c = operation.fact -> Calc64.have_a c = true ->
    Calc64.have_b c = true ->
    Calc64.main m64 prog opts
    = ([Error "Error: useless -b for this op"; Help prog], 1)) /\
   (In (Calc64.op c) [operation.add; operation.sub; operation.mul;
                      operation.div; operation.pow] ->
    Calc64.have_b c = false ->
    Calc64.main m64 prog opts
    = ([Error (if Calc64.have_a c then "Error: missing -b for this op"
               else "Error: missing -o or -a"); Help prog], 1))) /\
  (Calc32.resolves long_bits prog opts l ->
   (Calc32.op l = operation.fact -> Calc32.have_a l = true ->
    Calc32.have_b l = true ->
    Calc32.main long_bits m32 prog opts
    = ([Error "Error: useless -b for this operation"; Help prog], 1)) /\
   (In (Calc32.op l) [operation.add; operation.sub; operation.mul;
                      operation.div; operation.pow] ->
    Calc32.have_b l = false ->
    Calc32.main long_bits m32 prog opts
    = ([Error (if Calc32.have_a l
               then "Error: missing -b for this operation"
               else "Error: missing required arguments"); Help prog], 1))).
Proof.
  split; intros; [apply (arity64 _ _ _ c) | apply (arity32 _ _ _ _ l)];
    assumption.
Qed.

Lemma arity_usage_failure_witness :
  Calc64.main Spec.checked64 "calc" [opt_o "fact"; opt_a "5"; opt_b "3"]
  = ([Error "Error: useless -b for this op"; Help "calc"], 1) /\
  Calc64.main Spec.checked64 "calc" [opt_o "div"]
  = ([Error "Error: missing -o or -a"; Help "calc"], 1) /\
  Calc32.main 64 Spec.checked32 "calc" [opt_o "mul"; opt_a "5"]
  = ([Error "Error: missing -b for this operation"; Help "calc"], 1).
Proof.
  split; [|split].
  - apply (proj1 (proj1 (arity_usage_failure Spec.checked64 Spec.checked32 64
                           "calc" [opt_o "fact"; opt_a "5"; opt_b "3"]
                           (Calc64.mk_context operation.fact true 5 true 3
                              true
                              (Calc64.mathlib.ml_result_init Spec.checked64))
                           Calc32.locals_init)
                        ltac:(reflexivity)));
      reflexivity.
  - apply (proj2 (proj1 (arity_usage_failure Spec.checked64 Spec.checked32 64
                           "calc" [opt_o "div"]
                           (Calc64.mk_context operation.div true 0 false 0
                              false
                              (Calc64.mathlib.ml_result_init Spec.checked64))
                           Calc32.locals_init)
                        ltac:(reflexivity)));
      [simpl; tauto | reflexivity].
  - apply (proj2 (proj2 (arity_usage_failure Spec.checked64 Spec.checked32 64
                           "calc" [opt_o "mul"; opt_a "5"]
                           (Calc64.context_init Spec.checked64)
                           (Calc32.mk_locals 5 0 true false operation.mul true))
                        ltac:(reflexivity)));
      [simpl; tauto | reflexivity].
Defined.

(** C4 as stated fails without [-a]: [-o fact -b 3] goes through the
    option loop with operation [fact] and a B, and what is reported is
    the missing [-o] or [-a], not the useless [-b]. *)
Lemma fact_with_b_without_a :
  Calc64.resolves Spec.checked64 "calc" [opt_o "fact"; opt_b "3"]
    (Calc64.mk_context operation.fact true 0 false 3 true
       (Calc64.mathlib.ml_result_init Spec.checked64)) /\
  Calc64.main Spec.checked64 "calc" [opt_o "fact"; opt_b "3"]
  = ([Error "Error: missing -o or -a"; Help "calc"], 1) /\
  ~ In (Error "Error: useless -b for this op")
       (trace (Calc64.main Spec.checked64 "calc" [opt_o "fact"; opt_b "3"])) /\
  Calc32.main 64 Spec.checked32 "calc" [opt_o "fact"; opt_b "3"]
  = ([Error "Error: missing required arguments"; Help "calc"], 1).
Proof.
  repeat split. intros [H | [H | []]]; discriminate H.
Qed.

(** C5, as amended.  When every option before the help flag is a [-o],
    [-a] or [-b] that parses, the program prints the usage text and
    nothing else and stops: no arity check, no domain check, no
    arithmetic.  The second program then exits with 0, the first with
    the usage code 1. *)
Theorem help_short_circuits
    (m64 : Calc64.mathlib.lib) (m32 : Calc32.mathlib.lib) (long_bits : Z)
    (prog : string) (pre post : list getopt_ret)
    (c : Calc64.context) (l : Calc32.locals) :
  (Calc64.resolves m64 prog pre c ->
   Calc64.main m64 prog (pre ++ opt_h :: post) = ([Help prog], 1)) /\
  (Calc32.resolves long_bits prog pre l ->
   Calc32.main long_bits m32 prog (pre ++ opt_h :: post) = ([Help prog], 0)).
Proof.
  split; intros; [eapply help64 | eapply help32]; eassumption.
Qed.

Lemma help_short_circuits_witness :
  Calc64.main Spec.checked64 "calc"
    ([opt_o "pow"; opt_b "-1"] ++ opt_h :: [opt_a "x"]) = ([Help "calc"], 1) /\
  Calc32.main 64 Spec.checked32 "calc"
    ([opt_o "pow"; opt_b "-1"] ++ opt_h :: [opt_a "x"]) = ([Help "calc"], 0).
Proof.
  split.
  - apply (proj1 (help_short_circuits Spec.checked64 Spec.checked32 64
                    "calc" [opt_o "pow"; opt_b "-1"] [opt_a "x"]
                    (Calc64.mk_context operation.pow true 0 false (-1) true
                       (Calc64.mathlib.ml_result_init Spec.checked64))
                    Calc32.locals_init)).
    reflexivity.
  - apply (proj2 (help_short_circuits Spec.checked64 Spec.checked32 64
                    "calc" [opt_o "pow"; opt_b "-1"] [opt_a "x"]
                    (Calc64.context_init Spec.checked64)
                    (Calc32.mk_locals 0 (-1) false true operation.pow true))).
    reflexivity.
Defined.

(** C5 as stated fails twice: the first program exits with 1 on [-h],
    and in either program an option that does not parse before [-h]
    ends the run with its own error and no usage text. *)
Lemma help_not_always_success :
  Calc64.main Spec.checked64 "calc" [opt_h] = ([Help "calc"], 1) /\
  Calc32.main 64 Spec.checked32 "calc" [opt_o "xor"; opt_h]
  = ([Error "Error: unknown operation 'xor'"], 1) /\
  Calc64.main Spec.checked64 "calc" [opt_a "1x"; opt_h]
  = ([Error "Error: invalid integer for -a: '1x'"], 1).
Proof. repeat split. Qed.

(** C6, as amended.  In the first program every result the library
    returns carries a tag, and what is printed follows it: the signed
    member with [%lld] under [i64], the unsigned member with [%llu]
    under [u64].  The second program reads no tag: whatever it prints
    as a result it prints with [%d]. *)
Theorem result_format
    (m64 : Calc64.mathlib.lib) (m32 : Calc32.mathlib.lib) (long_bits : Z)
    (prog : string) (opts : list getopt_ret) (f : num_format) (v : Z) :
  (In (Result f v) (trace (Calc64.main m64 prog opts)) ->
   exists c,
     Calc64.resolves m64 prog opts c /\
     let res := Calc64.r (snd (result (Calc64.calc m64 c))) in
     Calc64.mathlib.error res = Calc64.mathlib.ok /\
     match Calc64.mathlib.kind res with
     | Calc64.mathlib.i64 => f = fmt_lld /\ v = Calc64.mathlib.value_i64 res
     | Calc64.mathlib.u64 => f = fmt_llu /\ v = Calc64.mathlib.value_u64 res
     end) /\
  (In (Result f v) (trace (Calc32.main long_bits m32 prog opts)) ->
   f = fmt_d).
Proof.
  split; [apply tagged64 | apply printed32].
Qed.

Lemma result_format_witness :
  (exists c,
     Calc64.resolves Spec.checked64 "calc" [opt_o "fact"; opt_a "5"] c /\
     let res := Calc64.r (snd (result (Calc64.calc Spec.checked64 c))) in
     Calc64.mathlib.error res = Calc64.mathlib.ok /\
     match Calc64.mathlib.kind res with
     | Calc64.mathlib.i64 =>
         fmt_llu = fmt_lld /\ 120 = Calc64.mathlib.value_i64 res
     | Calc64.mathlib.u64 =>
         fmt_llu = fmt_llu /\ 120 = Calc64.mathlib.value_u64 res
     end) /\
  fmt_d = fmt_d.
Proof.
  split.
  - apply (proj1 (result_format Spec.checked64 Spec.checked32 64 "calc"
                    [opt_o "fact"; opt_a "5"] fmt_llu 120)).
    right; left; reflexivity.
  - apply (proj2 (result_format Spec.checked64 Spec.checked32 64 "calc"
                    [opt_o "sub"; opt_a "2"; opt_b "5"] fmt_d (-3))).
    right; left; reflexivity.
Defined.

(** C6 as stated fails on the second program: a factorial is printed
    with [%d] like any other result, and no tag read off the library's
    result decides the format, since a result tagged unsigned would
    have to be printed with an unsigned format. *)
Lemma second_program_untagged :
  Calc32.main 64 Spec.checked32 "calc" [opt_o "fact"; opt_a "5"]
  = ([Engine (call_fact 5); Result fmt_d 120], 0) /\
  ~ (exists tag : Calc32.mathlib.ml_result -> Calc64.mathlib.ml_kind,
       (exists res, tag res = Calc64.mathlib.u64) /\
       forall m n, 0 <= n ->
         let res := Calc32.mathlib.ml_fact m (Calc32.to_uint n) in
         In (Result (match tag res with
                     | Calc64.mathlib.i64 => fmt_d
                     | Calc64.mathlib.u64 => fmt_llu
                     end) (Calc32.mathlib.value res))
            (trace (Calc32.run_operation m operation.fact n 0))).
Proof.
  split; [reflexivity|].
  intros [tag [[res T] F]].
  specialize (F (Calc32.mathlib.mk_lib
                   (fun _ _ => res) (fun _ _ => res) (fun _ _ => res)
                   (fun _ _ => res) (fun _ _ => res) (fun _ => res))
                0 (Z.le_refl 0)).
  simpl in F. rewrite T in F.
  destruct F as [F | [F | []]]; discriminate F.
Qed.

(** C7, as amended.  [parse_i64] and [parse_int] take a string exactly
    when it is white space (possibly none), then a base-10 signed
    integer: an optional sign and at least one digit, nothing after,
    with a value that fits [std::int64_t] for the first program and
    [int] for the second; for the second this needs a [long] wider than
    32 bits.  When the option loop comes to a [-a] or [-b] whose string
    is not taken, the run ends with the invalid-integer line and the
    usage code 1. *)
Theorem operand_accepted
    (m64 : Calc64.mathlib.lib) (m32 : Calc32.mathlib.lib) (long_bits : Z)
    (prog : string) (pre post : list getopt_ret) (s : string) (v : Z)
    (c : Calc64.context) (l : Calc32.locals) :
  (Calc64.parse_i64 s = Some v <->
   Spec.operand Libc.LLONG_MIN Libc.LLONG_MAX s v) /\
  (32 < long_bits ->
   (Calc32.parse_int long_bits s = Some v <->
    Spec.operand Libc.INT_MIN Libc.INT_MAX s v)) /\
  (Calc64.resolves m64 prog pre c -> Calc64.parse_i64 s = None ->
   Calc64.main m64 prog (pre ++ opt_a s :: post)
   = ([Error ("Error: invalid integer for -a: '" ++ s ++ "'")], 1) /\
   Calc64.main m64 prog (pre ++ opt_b s :: post)
   = ([Error ("Error: invalid integer for -b: '" ++ s ++ "'")], 1)) /\
  (Calc32.resolves long_bits prog pre l ->
   Calc32.parse_int long_bits s = None ->
   Calc32.main long_bits m32 prog (pre ++ opt_a s :: post)
   = ([Error ("Error: invalid integer for -a: '" ++ s ++ "'")], 1) /\
   Calc32.main long_bits m32 prog (pre ++ opt_b s :: post)
   = ([Error ("Error: invalid integer for -b: '" ++ s ++ "'")], 1)).
Proof.
  split; [apply parse_i64_operand|].
  split; [apply parse_int_operand|].
  split; intros H N.
  - destruct (repeated64 m64 prog pre s post) as [_ [_ [_ [_ [A B]]]]].
    split; [eapply A | eapply B]; eassumption.
  - destruct (repeated32 long_bits m32 prog pre s post)
      as [_ [_ [_ [_ [A B]]]]].
    split; [eapply A | eapply B]; eassumption.
Qed.

Lemma operand_accepted_witness :
  Spec.operand Libc.INT_MIN Libc.INT_MAX "-2147483648" (-2147483648) /\
  Calc64.main Spec.checked64 "calc"
    ([opt_o "add"] ++ opt_a "9223372036854775808" :: [opt_b "1"])
  = ([Error "Error: invalid integer for -a: '9223372036854775808'"], 1) /\
  Calc32.main 64 Spec.checked32 "calc" ([opt_o "add"] ++ opt_b "12 " :: [])
  = ([Error "Error: invalid integer for -b: '12 '"], 1).
Proof.
  split; [|split].
  - apply (proj1 (proj2 (operand_accepted Spec.checked64 Spec.checked32 64
                           "calc" [] [] "-2147483648" (-2147483648)
                           (Calc64.context_init Spec.checked64)
                           Calc32.locals_init))).
    + lia.
    + reflexivity.
  - apply (proj1 (proj2 (proj2 (operand_accepted Spec.checked64
                           Spec.checked32 64 "calc" [opt_o "add"] [opt_b "1"]
                           "9223372036854775808" 0
                           (Calc64.mk_context operation.add true 0 false 0
                              false
                              (Calc64.mathlib.ml_result_init Spec.checked64))
                           Calc32.locals_init)))); reflexivity.
  - apply (proj2 (proj2 (proj2 (operand_accepted Spec.checked64
                           Spec.checked32 64 "calc" [opt_o "add"] []
                           "12 " 0
                           (Calc64.context_init Spec.checked64)
                           (Calc32.mk_locals 0 0 false false operation.add
                              true))))); reflexivity.
Defined.

(** C7 as stated fails on leading white space: [" 5"] is no base-10
    signed integer, and both programs take it as 5. *)
Lemma leading_space_accepted :
  Spec.signed_decimal " 5" = None /\
  Calc64.parse_i64 " 5" = Some 5 /\
  Calc32.parse_int 64 " 5" = Some 5 /\
  Calc64.main Spec.checked64 "calc" [opt_o "fact"; opt_a " 5"]
  = ([Engine (call_fact 5); Result fmt_llu 120], 0).
Proof. repeat split. Qed.

(** C8, as amended.  A run that ends with the usage code 1 has called
    no function of the library and printed no result: all that can be
    on standard output is the usage text. *)
Theorem usage_before_arithmetic
    (m64 : Calc64.mathlib.lib) (m32 : Calc32.mathlib.lib) (long_bits : Z)
    (prog : string) (opts : list getopt_ret) :
  (result (Calc64.main m64 prog opts) = 1 ->
   existsb noisy (trace (Calc64.main m64 prog opts)) = false) /\
  (result (Calc32.main long_bits m32 prog opts) = 1 ->
   existsb noisy (trace (Calc32.main long_bits m32 prog opts)) = false).
Proof.
  split; [apply usage_quiet64 | apply usage_quiet32].
Qed.

Lemma usage_before_arithmetic_witness :
  existsb noisy
    (trace (Calc64.main Spec.checked64 "calc" [opt_o "div"; opt_b "0"]))
  = false /\
  existsb noisy
    (trace (Calc32.main 64 Spec.checked32 "calc" [opt_a "1"; opt_b "2"]))
  = false.
Proof.
  split.
  - apply (proj1 (usage_before_arithmetic Spec.checked64 Spec.checked32 64
                    "calc" [opt_o "div"; opt_b "0"])).
    reflexivity.
  - apply (proj2 (usage_before_arithmetic Spec.checked64 Spec.checked32 64
                    "calc" [opt_a "1"; opt_b "2"])).
    reflexivity.
Defined.

(** C8 as stated fails on standard output: a missing [-b] ends the run
    with the usage code 1, and the usage text was printed on standard
    output. *)
Lemma usage_text_on_stdout :
  Calc64.main Spec.checked64 "calc" [opt_o "add"; opt_a "1"]
  = ([Error "Error: missing -b for this op"; Help "calc"], 1) /\
  stdout_of (trace (Calc64.main Spec.checked64 "calc"
                      [opt_o "add"; opt_a "1"]))
  = map Line (help_text "calc") /\
  Calc32.main 64 Spec.checked32 "calc" [opt_o "add"; opt_a "1"]
  = ([Error "Error: missing -b for this operation"; Help "calc"], 1) /\
  existsb on_stdout
    (trace (Calc32.main 64 Spec.checked32 "calc" [opt_o "add"; opt_a "1"]))
  = true.
Proof. repeat split. Qed.




(** C10.  Whenever the first program calls [ml_pow] or [ml_fact], the
    unsigned argument it passes is the signed operand the user gave,
    unchanged by the cast: the call is only reached with an exponent
    (for [pow]) or operand (for [fact]) that [check] found to be at
    least 0. *)
Theorem cast_keeps_operand
    (m : Calc64.mathlib.lib) (prog : string) (opts : list getopt_ret) :
  (forall x y, In (Engine (call_pow x y)) (trace (Calc64.main m prog opts)) ->
     exists c, Calc64.resolves m prog opts c /\
               Calc64.op c = operation.pow /\
               x = Calc64.a c /\ y = Calc64.b c /\ 0 <= Calc64.b c) /\
  (forall n, In (Engine (call_fact n)) (trace (Calc64.main m prog opts)) ->
     exists c, Calc64.resolves m prog opts c /\
               Calc64.op c = operation.fact /\
               n = Calc64.a c /\ 0 <= Calc64.a c).
Proof. apply casts64. Qed.

Lemma cast_keeps_operand_witness :
  exists c,
    Calc64.resolves Spec.checked64 "calc"
      [opt_o "pow"; opt_a "-2"; opt_b "63"] c /\
    Calc64.op c = operation.pow /\
    -2 = Calc64.a c /\ 63 = Calc64.b c /\ 0 <= Calc64.b c.
Proof.
  apply (proj1 (cast_keeps_operand Spec.checked64 "calc"
                  [opt_o "pow"; opt_a "-2"; opt_b "63"]) (-2) 63).
  left; reflexivity.
Defined.

(** * Further properties of the two programs *)

(** ** The operation table *)

Lemma lookup_kOps_iff s o : lookup_op kOps s = Some o <-> In (s, o) kOps.
Proof.
  unfold kOps; simpl. split.
  - repeat match goal with
           | |- context [String.eqb s ?n] =>
               destruct (String.eqb_spec s n) as [-> | ?];
               [intros [= <-]; auto 10|]
           end.
    intros H; discriminate H.
  - intros H.
    repeat (destruct H as [[= <- <-] | H]; [reflexivity|]).
    destruct H.
Qed.

Lemma kOps_name s o :
  In (s, o) kOps ->
  s = match o with
      | operation.add => "add" | operation.sub => "sub"
      | operation.mul => "mul" | operation.div => "div"
      | operation.pow => "pow" | operation.fact => "fact"
      | operation.none => s
      end.
Proof.
  unfold kOps; simpl. intros H.
  repeat (destruct H as [[= <- <-] | H]; [reflexivity|]).
  destruct H.
Qed.

Lemma kOps_one_name s s' o :
  In (s, o) kOps -> In (s', o) kOps -> s = s'.
Proof.
  intros H H'. pose proof (lookup_kOps_not_none s o) as N.
  apply lookup_kOps_iff in H as L. specialize (N L).
  apply kOps_name in H, H'. destruct o; congruence.
Qed.

(** X1.  [parse_op] and [parse_operation] take exactly the six names of
    [kOps], spelled as they are; no string gives [operation::none], and
    two strings that give the same operation are the same string. *)
Theorem parse_op_table (s s' : string) (o : operation.t) :
  (Calc64.parse_op s = Some o <-> In (s, o) kOps) /\
  (Calc32.parse_operation s = Some o <-> In (s, o) kOps) /\
  Calc64.parse_op s <> Some operation.none /\
  Calc32.parse_operation s <> Some operation.none /\
  (Calc64.parse_op s = Some o -> Calc64.parse_op s' = Some o -> s = s').
Proof.
  repeat split; try apply lookup_kOps_iff;
    try (intros H; apply lookup_kOps_not_none in H; congruence).
  intros H H'. apply lookup_kOps_iff in H, H'.
  eapply kOps_one_name; eassumption.
Qed.

(** ** What the option loops leave behind *)

Lemma parse64_defaults prog opts : forall c t c',
  (Calc64.have_a c = false -> Calc64.a c = 0) ->
  (Calc64.have_b c = false -> Calc64.b c = 0) ->
  Calc64.parse c prog opts = (t, (exit_code.ok, c')) ->
  (Calc64.have_a c' = false -> Calc64.a c' = 0) /\
  (Calc64.have_b c' = false -> Calc64.b c' = 0).
Proof.
  induction opts as [|o rest IH]; intros c t c' Da Db H; simpl in H.
  - inversion H; subst; auto.
  - destruct o; simpl in H; try discriminate.
    + destruct (Calc64.parse_op optarg); [|discriminate].
      eapply IH; [| |exact H]; simpl; auto.
    + destruct (Calc64.parse_i64 optarg); [|discriminate].
      eapply IH; [| |exact H]; simpl; auto; discriminate.
    + destruct (Calc64.parse_i64 optarg); [|discriminate].
      eapply IH; [| |exact H]; simpl; auto; discriminate.
Qed.

Lemma loop32_defaults lb prog opts : forall l t l',
  (Calc32.have_a l = false -> Calc32.a l = 0) ->
  (Calc32.have_b l = false -> Calc32.b l = 0) ->
  Calc32.getopt_loop lb l prog opts = (t, inl l') ->
  (Calc32.have_a l' = false -> Calc32.a l' = 0) /\
  (Calc32.have_b l' = false -> Calc32.b l' = 0).
Proof.
  induction opts as [|o rest IH]; intros l t l' Da Db H; simpl in H.
  - inversion H; subst; auto.
  - destruct o; simpl in H; try discriminate.
    + destruct (Calc32.parse_operation optarg); [|discriminate].
      eapply IH; [| |exact H]; simpl; auto.
    + destruct (Calc32.parse_int lb optarg); [|discriminate].
      eapply IH; [| |exact H]; simpl; auto; discriminate.
    + destruct (Calc32.parse_int lb optarg); [|discriminate].
      eapply IH; [| |exact H]; simpl; auto; discriminate.
Qed.

(** X2.  When the option loop has gone through, in either program:
    [have_op] is set exactly when an operation other than [none] is
    stored, the operands fit the operand type ([std::int64_t], or [int]
    whatever the width of [long]), and an operand whose flag is not set
    still has its initial value 0. *)
Theorem loop_invariant
    (m : Calc64.mathlib.lib) (long_bits : Z) (prog : string)
    (opts : list getopt_ret) (c : Calc64.context) (l : Calc32.locals) :
  (Calc64.resolves m prog opts c ->
   Calc64.invariant c /\
   (Calc64.have_a c = false -> Calc64.a c = 0) /\
   (Calc64.have_b c = false -> Calc64.b c = 0)) /\
  (Calc32.resolves long_bits prog opts l ->
   Calc32.invariant l /\
   (Calc32.have_a l = false -> Calc32.a l = 0) /\
   (Calc32.have_b l = false -> Calc32.b l = 0)).
Proof.
  split; intros H.
  - split; [eapply resolves64_inv; eassumption|].
    eapply parse64_defaults; [| |exact H]; reflexivity.
  - split; [eapply resolves32_inv; eassumption|].
    eapply loop32_defaults; [| |exact H]; reflexivity.
Qed.

Lemma loop_invariant_witness :
  Calc64.invariant
    (Calc64.mk_context operation.fact true (-9223372036854775808) true 0 false
       (Calc64.mathlib.ml_result_init Spec.checked64)) /\
  (Calc32.have_a (Calc32.mk_locals 0 7 false true operation.none false) = false
   -> Calc32.a (Calc32.mk_locals 0 7 false true operation.none false) = 0).
Proof.
  split.
  - apply (proj1 (loop_invariant Spec.checked64 64 "calc"
                    [opt_a "-9223372036854775808"; opt_o "fact"]
                    (Calc64.mk_context operation.fact true
                       (-9223372036854775808) true 0 false
                       (Calc64.mathlib.ml_result_init Spec.checked64))
                    Calc32.locals_init)).
    reflexivity.
  - apply (proj2 (loop_invariant Spec.checked64 64 "calc" [opt_b "7"]
                    (Calc64.context_init Spec.checked64)
                    (Calc32.mk_locals 0 7 false true operation.none false))).
    reflexivity.
Defined.

Lemma parse_op_table_witness :
  In ("pow", operation.pow) kOps /\ Calc64.parse_op "Pow" <> Some operation.pow.
Proof.
  split.
  - apply (proj1 (proj1 (parse_op_table "pow" "pow" operation.pow))). reflexivity.
  - intros H. apply (proj1 (proj1 (parse_op_table "Pow" "Pow" operation.pow))) in H.
    simpl in H. repeat (destruct H as [H | H]; [discriminate H|]). exact H.
Defined.

(** ** Where the option loops stop *)

Lemma parse64_stops prog pre post : forall c t rc c',
  Calc64.parse c prog pre = (t, (rc, c')) -> rc <> exit_code.ok ->
  Calc64.parse c prog (pre ++ post) = (t, (rc, c')).
Proof.
  induction pre as [|o rest IH]; intros c t rc c' H N; simpl in H.
  - inversion H; subst; congruence.
  - destruct o; simpl in *; auto.
    + destruct (Calc64.parse_op optarg); eauto.
    + destruct (Calc64.parse_i64 optarg); eauto.
    + destruct (Calc64.parse_i64 optarg); eauto.
Qed.

Lemma loop32_stops lb prog pre post : forall l t n,
  Calc32.getopt_loop lb l prog pre = (t, inr n) ->
  Calc32.getopt_loop lb l prog (pre ++ post) = (t, inr n).
Proof.
  induction pre as [|o rest IH]; intros l t n H; simpl in H.
  - discriminate.
  - destruct o; simpl in *; auto.
    + destruct (Calc32.parse_operation optarg); eauto.
    + destruct (Calc32.parse_int lb optarg); eauto.
    + destruct (Calc32.parse_int lb optarg); eauto.
Qed.

(** X3.  Once the option loop has returned from inside its body (a
    string that does not parse, [-h], an unknown option), nothing that
    follows on the command line is looked at: with any further options
    appended, either program prints the same and exits with the same
    code. *)
Theorem stop_ignores_rest
    (m64 : Calc64.mathlib.lib) (m32 : Calc32.mathlib.lib) (long_bits : Z)
    (prog : string) (pre post : list getopt_ret) :
  (fst (snd (Calc64.parse (Calc64.context_init m64) prog pre))
   <> exit_code.ok ->
   Calc64.main m64 prog (pre ++ post) = Calc64.main m64 prog pre) /\
  ((forall l, snd (Calc32.getopt_loop long_bits Calc32.locals_init prog pre)
              <> inl l) ->
   Calc32.main long_bits m32 prog (pre ++ post)
   = Calc32.main long_bits m32 prog pre).
Proof.
  split.
  - destruct (Calc64.parse (Calc64.context_init m64) prog pre)
      as [t [rc c]] eqn:P. simpl. intros N.
    rewrite (run64_stopped _ _ _ _ _ _ P N).
    apply run64_stopped with (c := c); [|exact N].
    apply parse64_stops; assumption.
  - destruct (Calc32.getopt_loop long_bits Calc32.locals_init prog pre)
      as [t [l|n]] eqn:P; simpl; intros N.
    + exfalso. apply (N l). reflexivity.
    + rewrite (main32_stopped _ _ _ _ _ _ P).
      apply main32_stopped. apply loop32_stops. exact P.
Qed.

Lemma stop_ignores_rest_witness :
  Calc64.main Spec.checked64 "calc"
    ([opt_o "add"; opt_a "1e3"] ++ [opt_b "2"; opt_h])
  = Calc64.main Spec.checked64 "calc" [opt_o "add"; opt_a "1e3"] /\
  Calc32.main 64 Spec.checked32 "calc" ([opt_h] ++ [opt_o "nop"])
  = Calc32.main 64 Spec.checked32 "calc" [opt_h].
Proof.
  split.
  - apply (proj1 (stop_ignores_rest Spec.checked64 Spec.checked32 64 "calc"
                    [opt_o "add"; opt_a "1e3"] [opt_b "2"; opt_h])).
    discriminate.
  - apply (proj2 (stop_ignores_rest Spec.checked64 Spec.checked32 64 "calc"
                    [opt_h] [opt_o "nop"])).
    discriminate.
Defined.

(** X4.  An option [getopt_long] does not know, or one that lacks its
    argument, coming after options that all parse, makes either program
    print the usage text, and nothing on standard error, and exit with
    the usage code 1. *)
Theorem unknown_option_usage
    (m64 : Calc64.mathlib.lib) (m32 : Calc32.mathlib.lib) (long_bits : Z)
    (prog : string) (pre post : list getopt_ret)
    (c : Calc64.context) (l : Calc32.locals) :
  (Calc64.resolves m64 prog pre c ->
   Calc64.main m64 prog (pre ++ opt_other :: post) = ([Help prog], 1)) /\
  (Calc32.resolves long_bits prog pre l ->
   Calc32.main long_bits m32 prog (pre ++ opt_other :: post)
   = ([Help prog], 1)).
Proof.
  split; intros H.
  - unfold Calc64.main, Calc64.run.
    rewrite (parse64_app _ _ _ _ _ H). reflexivity.
  - unfold Calc32.main.
    rewrite (loop32_app _ _ _ _ _ _ H). reflexivity.
Qed.

Lemma unknown_option_usage_witness :
  Calc64.main Spec.checked64 "calc"
    ([opt_o "add"; opt_a "1"; opt_b "2"] ++ opt_other :: [])
  = ([Help "calc"], 1) /\
  Calc32.main 64 Spec.checked32 "calc" ([] ++ opt_other :: [opt_h])
  = ([Help "calc"], 1).
Proof.
  split.
  - apply (proj1 (unknown_option_usage Spec.checked64 Spec.checked32 64
                    "calc" [opt_o "add"; opt_a "1"; opt_b "2"] []
                    (Calc64.mk_context operation.add true 1 true 2 true
                       (Calc64.mathlib.ml_result_init Spec.checked64))
                    Calc32.locals_init)).
    reflexivity.
  - apply (proj2 (unknown_option_usage Spec.checked64 Spec.checked32 64
                    "calc" [] [opt_h] (Calc64.context_init Spec.checked64)
                    Calc32.locals_init)).
    reflexivity.
Defined.

(** ** The order of the options *)

Lemma parse64_swap prog x y post c :
  accepted64 x = true -> accepted64 y = true -> flag_of x <> flag_of y ->
  Calc64.parse c prog (x :: y :: post) = Calc64.parse c prog (y :: x :: post).
Proof.
  intros Ax Ay D.
  destruct x as [sx|sx|sx| |], y as [sy|sy|sy| |]; simpl in *;
    try congruence;
    repeat match goal with
           | H : context [Calc64.parse_op ?s] |- _ =>
               destruct (Calc64.parse_op s); [|discriminate H]
           | H : context [Calc64.parse_i64 ?s] |- _ =>
               destruct (Calc64.parse_i64 s); [|discriminate H]
           end;
    reflexivity.
Qed.

Lemma loop32_swap lb prog x y post l :
  accepted32 lb x = true -> accepted32 lb y = true ->
  flag_of x <> flag_of y ->
  Calc32.getopt_loop lb l prog (x :: y :: post)
  = Calc32.getopt_loop lb l prog (y :: x :: post).
Proof.
  intros Ax Ay D.
  destruct x as [sx|sx|sx| |], y as [sy|sy|sy| |]; simpl in *;
    try congruence;
    repeat match goal with
           | H : context [Calc32.parse_operation ?s] |- _ =>
               destruct (Calc32.parse_operation s); [|discriminate H]
           | H : context [Calc32.parse_int lb ?s] |- _ =>
               destruct (Calc32.parse_int lb s); [|discriminate H]
           end;
    reflexivity.
Qed.

(** X5.  Two neighbouring options that set different ones of [-o],
    [-a], [-b], and whose strings parse, can change places: whatever
    comes before and after them, either program prints the same and
    exits with the same code. *)
Theorem options_commute
    (m64 : Calc64.mathlib.lib) (m32 : Calc32.mathlib.lib) (long_bits : Z)
    (prog : string) (pre post : list getopt_ret) (x y : getopt_ret) :
  flag_of x <> flag_of y ->
  (accepted64 x = true -> accepted64 y = true ->
   Calc64.main m64 prog (pre ++ x :: y :: post)
   = Calc64.main m64 prog (pre ++ y :: x :: post)) /\
  (accepted32 long_bits x = true -> accepted32 long_bits y = true ->
   Calc32.main long_bits m32 prog (pre ++ x :: y :: post)
   = Calc32.main long_bits m32 prog (pre ++ y :: x :: post)).
Proof.
  intros D. split; intros Ax Ay.
  - unfold Calc64.main, Calc64.run.
    rewrite (parse64_under prog pre (x :: y :: post) (y :: x :: post));
      [reflexivity|].
    intros c'. apply parse64_swap; assumption.
  - unfold Calc32.main.
    rewrite (loop32_under long_bits prog pre (x :: y :: post)
               (y :: x :: post)); [reflexivity|].
    intros l'. apply loop32_swap; assumption.
Qed.

Lemma options_commute_witness :
  Calc64.main Spec.checked64 "calc"
    ([opt_o "sub"] ++ opt_b "3" :: opt_a "10" :: [opt_b "4"])
  = Calc64.main Spec.checked64 "calc"
      ([opt_o "sub"] ++ opt_a "10" :: opt_b "3" :: [opt_b "4"]) /\
  Calc32.main 64 Spec.checked32 "calc"
    ([] ++ opt_a "5" :: opt_o "fact" :: [])
  = Calc32.main 64 Spec.checked32 "calc"
      ([] ++ opt_o "fact" :: opt_a "5" :: []).
Proof.
  split.
  - apply (proj1 (options_commute Spec.checked64 Spec.checked32 64 "calc"
                    [opt_o "sub"] [opt_b "4"] (opt_b "3") (opt_a "10")
                    ltac:(discriminate))); reflexivity.
  - apply (proj2 (options_commute Spec.checked64 Spec.checked32 64 "calc"
                    [] [] (opt_a "5") (opt_o "fact")
                    ltac:(discriminate))); reflexivity.
Defined.

Lemma parse64_twice prog x post c :
  Calc64.parse c prog (x :: x :: post) = Calc64.parse c prog (x :: post).
Proof.
  destruct x as [s|s|s| |]; simpl; try reflexivity.
  - destruct (Calc64.parse_op s); reflexivity.
  - destruct (Calc64.parse_i64 s); reflexivity.
  - destruct (Calc64.parse_i64 s); reflexivity.
Qed.

Lemma loop32_twice lb prog x post l :
  Calc32.getopt_loop lb l prog (x :: x :: post)
  = Calc32.getopt_loop lb l prog (x :: post).
Proof.
  destruct x as [s|s|s| |]; simpl; try reflexivity.
  - destruct (Calc32.parse_operation s); reflexivity.
  - destruct (Calc32.parse_int lb s); reflexivity.
  - destruct (Calc32.parse_int lb s); reflexivity.
Qed.

(** X6.  Giving an option twice in a row is the same as giving it
    once, for every option and wherever it stands: either program
    prints the same and exits with the same code. *)
Theorem doubled_option
    (m64 : Calc64.mathlib.lib) (m32 : Calc32.mathlib.lib) (long_bits : Z)
    (prog : string) (pre post : list getopt_ret) (x : getopt_ret) :
  Calc64.main m64 prog (pre ++ x :: x :: post)
  = Calc64.main m64 prog (pre ++ x :: post) /\
  Calc32.main long_bits m32 prog (pre ++ x :: x :: post)
  = Calc32.main long_bits m32 prog (pre ++ x :: post).
Proof.
  split.
  - unfold Calc64.main, Calc64.run.
    rewrite (parse64_under prog pre (x :: x :: post) (x :: post));
      [reflexivity|].
    intros c'. apply parse64_twice.
  - unfold Calc32.main.
    rewrite (loop32_under long_bits prog pre (x :: x :: post) (x :: post));
      [reflexivity|].
    intros l'. apply loop32_twice.
Qed.

(** ** The verdict of [check] *)

(** X7.  [check] returns [usage] exactly for a context that fails one
    of its three usage tests, [math] exactly for a well-formed one that
    asks for [pow] with a negative B or [fact] with a negative A, and
    [ok] otherwise; when it returns [ok] it has printed nothing, and
    the usage text goes with [usage] alone. *)
Theorem check_verdict (c : Calc64.context) (prog : string) :
  (result (Calc64.check c prog) = exit_code.usage <->
   Calc64.well_formed c = false) /\
  (result (Calc64.check c prog) = exit_code.math <->
   Calc64.well_formed c = true /\
   ((Calc64.op c = operation.pow /\ Calc64.b c < 0) \/
    (Calc64.op c = operation.fact /\ Calc64.a c < 0))) /\
  (result (Calc64.check c prog) = exit_code.ok ->
   trace (Calc64.check c prog) = []) /\
  (In (Help prog) (trace (Calc64.check c prog)) <->
   result (Calc64.check c prog) = exit_code.usage).
Proof.
  destruct c as [o ho a ha b hb r].
  unfold Calc64.check, Calc64.well_formed.
  destruct ho, ha, hb, o; simpl;
    repeat match goal with
           | |- context [Z.ltb ?x 0] => destruct (Z.ltb_spec x 0); simpl
           end;
    repeat split; intros; try discriminate; try reflexivity;
    try lia; auto;
    repeat match goal with
           | H : _ /\ _ |- _ => destruct H
           | H : _ \/ _ |- _ => destruct H
           | H : False |- _ => destruct H
           end;
    try discriminate; try lia; auto.
Qed.

Lemma check_verdict_witness :
  Calc64.well_formed
    (Calc64.mk_context operation.fact true 3 true 1 true
       (Calc64.mathlib.ml_result_init Spec.checked64)) = false /\
  trace (Calc64.check
           (Calc64.mk_context operation.pow true (-2) true 3 true
              (Calc64.mathlib.ml_result_init Spec.checked64)) "calc") = [].
Proof.
  split.
  - apply (proj1 (proj1 (check_verdict
             (Calc64.mk_context operation.fact true 3 true 1 true
                (Calc64.mathlib.ml_result_init Spec.checked64)) "calc"))).
    reflexivity.
  - apply (proj1 (proj2 (proj2 (check_verdict
             (Calc64.mk_context operation.pow true (-2) true 3 true
                (Calc64.mathlib.ml_result_init Spec.checked64)) "calc")))).
    reflexivity.
Defined.

(** ** Everything the programs can print *)

(** What the option loop has printed when it stops early, and the code
    it stops with. *)
Lemma parse64_stop_shape prog opts : forall c t rc c',
  Calc64.parse c prog opts = (t, (rc, c')) -> rc <> exit_code.ok ->
  rc = exit_code.usage /\
  (t = [Help prog] \/
   (exists s, t = [Error ("Error: unknown operation '" ++ s ++ "'")]) \/
   (exists s, t = [Error ("Error: invalid integer for -a: '" ++ s ++ "'")]) \/
   (exists s, t = [Error ("Error: invalid integer for -b: '" ++ s ++ "'")])).
Proof.
  induction opts as [|o rest IH]; intros c t rc c' H N; simpl in H.
  - inversion H; subst; congruence.
  - destruct o; simpl in H.
    + destruct (Calc64.parse_op optarg); [eauto|].
      inversion H; subst. split; [reflexivity|].
      right; left; exists optarg; reflexivity.
    + destruct (Calc64.parse_i64 optarg); [eauto|].
      inversion H; subst. split; [reflexivity|].
      right; right; left; exists optarg; reflexivity.
    + destruct (Calc64.parse_i64 optarg); [eauto|].
      inversion H; subst. split; [reflexivity|].
      right; right; right; exists optarg; reflexivity.
    + inversion H; subst. split; auto.
    + inversion H; subst. split; auto.
Qed.

Lemma loop32_stop_shape lb prog opts : forall l t n,
  Calc32.getopt_loop lb l prog opts = (t, inr n) ->
  (n = 0 /\ t = [Help prog]) \/
  (n = 1 /\
   (t = [Help prog] \/
    (exists s, t = [Error ("Error: unknown operation '" ++ s ++ "'")]) \/
    (exists s, t = [Error ("Error: invalid integer for -a: '" ++ s ++ "'")]) \/
    (exists s, t = [Error ("Error: invalid integer for -b: '" ++ s ++ "'")]))).
Proof.
  induction opts as [|o rest IH]; intros l t n H; simpl in H.
  - discriminate.
  - destruct o; simpl in H.
    + destruct (Calc32.parse_operation optarg); [eauto|].
      inversion H; subst. right; split; [reflexivity|].
      right; left; exists optarg; reflexivity.
    + destruct (Calc32.parse_int lb optarg); [eauto|].
      inversion H; subst. right; split; [reflexivity|].
      right; right; left; exists optarg; reflexivity.
    + destruct (Calc32.parse_int lb optarg); [eauto|].
      inversion H; subst. right; split; [reflexivity|].
      right; right; right; exists optarg; reflexivity.
    + inversion H; subst. left; auto.
    + inversion H; subst. right; split; auto.
Qed.

Lemma outputs64 m prog opts :
  let run := Calc64.main m prog opts in
  (result run = 0 /\
   exists call f v, trace run = [Engine call; Result f v]) \/
  (result run = 1 /\
   (trace run = [Help prog] \/
    (exists s, trace run
               = [Error ("Error: unknown operation '" ++ s ++ "'")]) \/
    (exists s, trace run
               = [Error ("Error: invalid integer for -a: '" ++ s ++ "'")]) \/
    (exists s, trace run
               = [Error ("Error: invalid integer for -b: '" ++ s ++ "'")]) \/
    trace run = [Error "Error: missing -o or -a"; Help prog] \/
    trace run = [Error "Error: useless -b for this op"; Help prog] \/
    trace run = [Error "Error: missing -b for this op"; Help prog])) \/
  (result run = 2 /\
   (trace run = [Error "Error: pow: domain error (b must be >= 0)"] \/
    trace run = [Error "Error: fact: domain error (a must be >= 0)"] \/
    (exists call,
       trace run = [Engine call; Error "Error: calc: division by zero"]) \/
    (exists call, trace run = [Engine call; Error "Error: calc: overflow"]) \/
    (exists call, trace run = [Engine call; Error "Error: calc: math error"]))).
Proof.
  cbv zeta.
  destruct (Calc64.parse (Calc64.context_init m) prog opts) as [t [rc c]] eqn:P.
  destruct (exit_code.is_ok rc) eqn:K.
  - destruct rc; try discriminate K.
    assert (t = []) as -> by (eapply parse64_ok_silent; eauto).
    pose proof (resolves64_inv _ _ _ _ P) as [I _].
    rewrite (run64_resolved m prog opts c P).
    destruct c as [o ho a ha b hb r]. simpl in I.
    unfold Calc64.check, Calc64.calc, Calc64.print_result,
      Calc64.print_math_err.
    destruct ho, ha, hb, o;
      try (exfalso; apply (proj1 I); reflexivity);
      crunch64; unfold result, trace; simpl;
      first [ left; split; [reflexivity|]; eauto
            | right; left; split; [reflexivity|]; tauto
            | right; right; split; [reflexivity|]; eauto 8 ].
  - assert (rc <> exit_code.ok) as N by (destruct rc; simpl in K; congruence).
    rewrite (run64_stopped _ _ _ _ _ _ P N).
    destruct (parse64_stop_shape _ _ _ _ _ _ P N) as [-> S].
    right; left. split; [reflexivity|]. unfold trace; simpl.
    destruct S as [S | [S | [S | S]]]; auto 6.
Qed.

Lemma outputs32 lb m prog opts :
  let run := Calc32.main lb m prog opts in
  (result run = 0 /\
   (trace run = [Help prog] \/
    exists call v, trace run = [Engine call; Result fmt_d v])) \/
  (result run = 1 /\
   (trace run = [Help prog] \/
    (exists s, trace run
               = [Error ("Error: unknown operation '" ++ s ++ "'")]) \/
    (exists s, trace run
               = [Error ("Error: invalid integer for -a: '" ++ s ++ "'")]) \/
    (exists s, trace run
               = [Error ("Error: invalid integer for -b: '" ++ s ++ "'")]) \/
    trace run = [Error "Error: missing required arguments"; Help prog] \/
    trace run = [Error "Error: useless -b for this operation"; Help prog] \/
    trace run = [Error "Error: missing -b for this operation"; Help prog])) \/
  (result run = 2 /\
   (trace run = [Error "Error: pow: domain error (b must be >= 0)"] \/
    trace run = [Error "Error: fact: domain error (a must be >= 0)"] \/
    (exists call,
       trace run = [Engine call; Error "Error: div: division by zero"]) \/
    (exists call,
       trace run = [Engine call; Error "Error: div: unknown math error"]))).
Proof.
  cbv zeta.
  destruct (Calc32.getopt_loop lb Calc32.locals_init prog opts)
    as [t [l|n]] eqn:P.
  - assert (t = []) as -> by (eapply loop32_ok_silent; eauto).
    pose proof (resolves32_inv _ _ _ _ P) as [I _].
    rewrite (main32_resolved lb m prog opts l P).
    destruct l as [a b ha hb o ho]. simpl in I.
    unfold Calc32.run_operation, Calc32.print_math_error.
    destruct ho, ha, hb, o;
      try (exfalso; apply (proj1 I); reflexivity);
      crunch32; unfold result, trace; simpl;
      first [ left; split; [reflexivity|]; eauto
            | right; left; split; [reflexivity|]; tauto
            | right; right; split; [reflexivity|]; eauto 8 ].
  - rewrite (main32_stopped _ _ _ _ _ _ P).
    destruct (loop32_stop_shape _ _ _ _ _ _ P) as [[-> ->] | [-> S]].
    + left. split; [reflexivity|]. left; reflexivity.
    + right; left. split; [reflexivity|]. unfold trace; simpl.
      destruct S as [S | [S | [S | S]]]; auto 6.
Qed.

(** X8.  Every run of the first program is of one of three kinds.  It
    exits with 0 after one call of the library and one result line,
    and nothing else.  Or it exits with 1 after one of seven outputs:
    the usage text alone, one of the three lines about a string that
    does not parse, or one of the three arity lines followed by the
    usage text.  Or it exits with 2 after exactly one line on standard
    error, a domain line without a call of the library or a library
    error line after the call, and nothing on standard output. *)
Theorem output_repertoire64
    (m : Calc64.mathlib.lib) (prog : string) (opts : list getopt_ret) :
  let run := Calc64.main m prog opts in
  (result run = 0 /\
   exists call f v, trace run = [Engine call; Result f v]) \/
  (result run = 1 /\
   (trace run = [Help prog] \/
    (exists s, trace run
               = [Error ("Error: unknown operation '" ++ s ++ "'")]) \/
    (exists s, trace run
               = [Error ("Error: invalid integer for -a: '" ++ s ++ "'")]) \/
    (exists s, trace run
               = [Error ("Error: invalid integer for -b: '" ++ s ++ "'")]) \/
    trace run = [Error "Error: missing -o or -a"; Help prog] \/
    trace run = [Error "Error: useless -b for this op"; Help prog] \/
    trace run = [Error "Error: missing -b for this op"; Help prog])) \/
  (result run = 2 /\
   (trace run = [Error "Error: pow: domain error (b must be >= 0)"] \/
    trace run = [Error "Error: fact: domain error (a must be >= 0)"] \/
    (exists call,
       trace run = [Engine call; Error "Error: calc: division by zero"]) \/
    (exists call, trace run = [Engine call; Error "Error: calc: overflow"]) \/
    (exists call, trace run = [Engine call; Error "Error: calc: math error"]))).
Proof. apply outputs64. Qed.

(** X9.  Every run of the second program is of one of three kinds.  It
    exits with 0 after the usage text alone ([-h]) or after one call of
    the library and one [%d] line.  Or it exits with 1 after the usage
    text alone, one of the three lines about a string that does not
    parse, or one of the three arity lines followed by the usage text.
    Or it exits with 2 after exactly one line on standard error: a
    domain line without a call of the library, or one of the two [div]
    lines after the call. *)
Theorem output_repertoire32
    (long_bits : Z) (m : Calc32.mathlib.lib) (prog : string)
    (opts : list getopt_ret) :
  let run := Calc32.main long_bits m prog opts in
  (result run = 0 /\
   (trace run = [Help prog] \/
    exists call v, trace run = [Engine call; Result fmt_d v])) \/
  (result run = 1 /\
   (trace run = [Help prog] \/
    (exists s, trace run
               = [Error ("Error: unknown operation '" ++ s ++ "'")]) \/
    (exists s, trace run
               = [Error ("Error: invalid integer for -a: '" ++ s ++ "'")]) \/
    (exists s, trace run
               = [Error ("Error: invalid integer for -b: '" ++ s ++ "'")]) \/
    trace run = [Error "Error: missing required arguments"; Help prog] \/
    trace run = [Error "Error: useless -b for this operation"; Help prog] \/
    trace run = [Error "Error: missing -b for this operation"; Help prog])) \/
  (result run = 2 /\
   (trace run = [Error "Error: pow: domain error (b must be >= 0)"] \/
    trace run = [Error "Error: fact: domain error (a must be >= 0)"] \/
    (exists call,
       trace run = [Engine call; Error "Error: div: division by zero"]) \/
    (exists call,
       trace run = [Engine call; Error "Error: div: unknown math error"]))).
Proof. apply outputs32. Qed.

Ltac no_such_line :=
  repeat match goal with
         | H : _ /\ _ |- _ => destruct H
         | H : _ \/ _ |- _ => destruct H
         | H : exists _, _ |- _ => destruct H
         | H : trace _ = _, HIn : In _ (trace _) |- _ => rewrite H in HIn
         | H : In _ (_ :: _) |- _ => destruct H
         | H : In _ [] |- _ => destruct H
         | H : _ = Error _ |- _ => discriminate H
         end.

(** X10.  The line "Error: unknown operation" of [calc] and of
    [run_operation] is never printed: the option loop stores an
    operation only from the table, and the usage tests stop a run that
    has none, so the [none] and [default] cases are never reached from
    [main]. *)
Theorem unknown_operation_unreachable
    (m64 : Calc64.mathlib.lib) (m32 : Calc32.mathlib.lib) (long_bits : Z)
    (prog : string) (opts : list getopt_ret) :
  ~ In (Error "Error: unknown operation")
       (trace (Calc64.main m64 prog opts)) /\
  ~ In (Error "Error: unknown operation")
       (trace (Calc32.main long_bits m32 prog opts)).
Proof.
  split; intros HIn.
  - pose proof (outputs64 m64 prog opts) as O. cbv zeta in O. no_such_line.
  - pose proof (outputs32 long_bits m32 prog opts) as O. cbv zeta in O.
    no_such_line.
Qed.

(** ** What reaches the library *)

Lemma request_call64 m prog opts call :
  In (Engine call) (trace (Calc64.main m prog opts)) ->
  exists c,
    Calc64.resolves m prog opts c /\ Calc64.well_formed c = true /\
    call = match Calc64.op c with
           | operation.add => call_add (Calc64.a c) (Calc64.b c)
           | operation.sub => call_sub (Calc64.a c) (Calc64.b c)
           | operation.mul => call_mul (Calc64.a c) (Calc64.b c)
           | operation.div => call_div (Calc64.a c) (Calc64.b c)
           | operation.pow => call_pow (Calc64.a c) (Calc64.b c)
           | operation.fact => call_fact (Calc64.a c)
           | operation.none => call
           end.
Proof.
  destruct (Calc64.parse (Calc64.context_init m) prog opts) as [t [rc c]] eqn:P.
  assert (existsb noisy t = false) as Q.
  { pose proof (parse64_quiet prog opts (Calc64.context_init m)) as Q.
    rewrite P in Q. exact Q. }
  destruct rc.
  - assert (t = []) as -> by (eapply parse64_ok_silent; eauto).
    rewrite (run64_resolved m prog opts c P).
    pose proof (resolves64_inv _ _ _ _ P) as [_ [Ia Ib]].
    intros HIn. exists c. split; [exact P|]. revert HIn.
    destruct c as [o ho a ha b hb r].
    unfold Calc64.check, Calc64.calc, Calc64.print_result,
      Calc64.print_math_err, Calc64.well_formed; simpl in Ia, Ib.
    destruct ho, ha, hb, o; crunch64; intros HIn; cases_in HIn;
      subst; split; auto; f_equal;
      first [apply to_u64_id | symmetry; apply to_u64_id]; lia.
  - rewrite (run64_stopped _ _ _ _ _ _ P) by discriminate.
    intros; exfalso; eapply quiet_no_engine; eauto.
  - rewrite (run64_stopped _ _ _ _ _ _ P) by discriminate.
    intros; exfalso; eapply quiet_no_engine; eauto.
Qed.

Lemma request_call32 lb m prog opts call :
  In (Engine call) (trace (Calc32.main lb m prog opts)) ->
  exists l,
    Calc32.resolves lb prog opts l /\ Calc32.well_formed l = true /\
    call = match Calc32.op l with
           | operation.add => call_add (Calc32.a l) (Calc32.b l)
           | operation.sub => call_sub (Calc32.a l) (Calc32.b l)
           | operation.mul => call_mul (Calc32.a l) (Calc32.b l)
           | operation.div => call_div (Calc32.a l) (Calc32.b l)
           | operation.pow => call_pow (Calc32.a l) (Calc32.b l)
           | operation.fact => call_fact (Calc32.a l)
           | operation.none => call
           end.
Proof.
  destruct (Calc32.getopt_loop lb Calc32.locals_init prog opts)
    as [t [l|n]] eqn:P.
  - assert (t = []) as -> by (eapply loop32_ok_silent; eauto).
    rewrite (main32_resolved lb m prog opts l P).
    pose proof (resolves32_inv _ _ _ _ P) as [_ [Ia Ib]].
    intros HIn. exists l. split; [exact P|]. revert HIn.
    destruct l as [a b ha hb o ho].
    unfold Calc32.run_operation, Calc32.print_math_error,
      Calc32.well_formed; simpl in Ia, Ib.
    destruct ho, ha, hb, o; crunch32; intros HIn; cases_in HIn;
      subst; split; auto; f_equal;
      first [apply to_uint_id | symmetry; apply to_uint_id]; lia.
  - rewrite (main32_stopped _ _ _ _ _ _ P).
    assert (existsb noisy t = false) as Q.
    { pose proof (loop32_quiet lb prog opts Calc32.locals_init) as Q.
      rewrite P in Q. exact Q. }
    intros; exfalso; eapply quiet_no_engine; eauto.
Qed.

(** X11.  Whatever function of the library either program calls, it is
    the one of the stored operation, for a request that passed the three
    usage tests (so with [-a] given, and [-b] given exactly when the
    operation takes it), and with the operands as the option loop stored
    them. *)
Theorem library_call_is_request
    (m64 : Calc64.mathlib.lib) (m32 : Calc32.mathlib.lib) (long_bits : Z)
    (prog : string) (opts : list getopt_ret) (call : ml_call) :
  (In (Engine call) (trace (Calc64.main m64 prog opts)) ->
   exists c,
     Calc64.resolves m64 prog opts c /\ Calc64.well_formed c = true /\
     call = match Calc64.op c with
            | operation.add => call_add (Calc64.a c) (Calc64.b c)
            | operation.sub => call_sub (Calc64.a c) (Calc64.b c)
            | operation.mul => call_mul (Calc64.a c) (Calc64.b c)
            | operation.div => call_div (Calc64.a c) (Calc64.b c)
            | operation.pow => call_pow (Calc64.a c) (Calc64.b c)
            | operation.fact => call_fact (Calc64.a c)
            | operation.none => call
            end) /\
  (In (Engine call) (trace (Calc32.main long_bits m32 prog opts)) ->
   exists l,
     Calc32.resolves long_bits prog opts l /\ Calc32.well_formed l = true /\
     call = match Calc32.op l with
            | operation.add => call_add (Calc32.a l) (Calc32.b l)
            | operation.sub => call_sub (Calc32.a l) (Calc32.b l)
            | operation.mul => call_mul (Calc32.a l) (Calc32.b l)
            | operation.div => call_div (Calc32.a l) (Calc32.b l)
            | operation.pow => call_pow (Calc32.a l) (Calc32.b l)
            | operation.fact => call_fact (Calc32.a l)
            | operation.none => call
            end).
Proof. split; [apply request_call64 | apply request_call32]. Qed.

Lemma library_call_is_request_witness :
  (exists c,
     Calc64.resolves Spec.checked64 "calc"
       [opt_b "4"; opt_o "div"; opt_a "-9"] c /\
     Calc64.well_formed c = true /\
     call_div (-9) 4
     = match Calc64.op c with
       | operation.add => call_add (Calc64.a c) (Calc64.b c)
       | operation.sub => call_sub (Calc64.a c) (Calc64.b c)
       | operation.mul => call_mul (Calc64.a c) (Calc64.b c)
       | operation.div => call_div (Calc64.a c) (Calc64.b c)
       | operation.pow => call_pow (Calc64.a c) (Calc64.b c)
       | operation.fact => call_fact (Calc64.a c)
       | operation.none => call_div (-9) 4
       end) /\
  (exists l,
     Calc32.resolves 64 "calc" [opt_a "6"; opt_o "fact"] l /\
     Calc32.well_formed l = true /\
     call_fact 6
     = match Calc32.op l with
       | operation.add => call_add (Calc32.a l) (Calc32.b l)
       | operation.sub => call_sub (Calc32.a l) (Calc32.b l)
       | operation.mul => call_mul (Calc32.a l) (Calc32.b l)
       | operation.div => call_div (Calc32.a l) (Calc32.b l)
       | operation.pow => call_pow (Calc32.a l) (Calc32.b l)
       | operation.fact => call_fact (Calc32.a l)
       | operation.none => call_fact 6
       end).
Proof.
  split.
  - apply (proj1 (library_call_is_request Spec.checked64 Spec.checked32 64
                    "calc" [opt_b "4"; opt_o "div"; opt_a "-9"]
                    (call_div (-9) 4))).
    left; reflexivity.
  - apply (proj2 (library_call_is_request Spec.checked64 Spec.checked32 64
                    "calc" [opt_a "6"; opt_o "fact"] (call_fact 6))).
    left; reflexivity.
Defined.

(** ** What the library returns *)

Lemma library_error64 m prog opts c :
  Calc64.resolves m prog opts c ->
  result (Calc64.check c prog) = exit_code.ok ->
  let res := Calc64.r (snd (result (Calc64.calc m c))) in
  Calc64.mathlib.error res <> Calc64.mathlib.ok ->
  Calc64.main m prog opts
  = ((trace (Calc64.calc m c) ++
      [Error (match Calc64.mathlib.error res with
              | Calc64.mathlib.div0 => "Error: calc: division by zero"
              | Calc64.mathlib.overflow => "Error: calc: overflow"
              | _ => "Error: calc: math error"
              end)])%list, 2).
Proof.
  intros H. rewrite (run64_resolved _ _ _ _ H).
  pose proof (resolves64_inv _ _ _ _ H) as [I _].
  destruct c as [o ho a ha b hb r]. simpl in I.
  unfold Calc64.check, Calc64.calc, Calc64.print_result,
    Calc64.print_math_err.
  destruct ho, ha, hb, o; simpl; try discriminate;
    try (exfalso; apply (proj1 I); reflexivity);
    repeat match goal with
           | |- context [Z.ltb ?x 0] => destruct (Z.ltb_spec x 0); simpl
           end;
    try discriminate; intros _ E;
    match goal with
    | |- context [Calc64.mathlib.error ?r] =>
        destruct (Calc64.mathlib.error r)
    end; try congruence; reflexivity.
Qed.

(** X12.  In the first program, when the request passes [check] and the
    library returns any error (division by zero, overflow or another
    one), the run is the call, then the one line of [print_math_err]
    for that error on standard error, with exit code 2: the [value] of
    a failed result is never printed, for any of the six operations. *)
Theorem library_error_reported
    (m : Calc64.mathlib.lib) (prog : string) (opts : list getopt_ret)
    (c : Calc64.context) :
  Calc64.resolves m prog opts c ->
  result (Calc64.check c prog) = exit_code.ok ->
  let res := Calc64.r (snd (result (Calc64.calc m c))) in
  Calc64.mathlib.error res <> Calc64.mathlib.ok ->
  Calc64.main m prog opts
  = ((trace (Calc64.calc m c) ++
      [Error (match Calc64.mathlib.error res with
              | Calc64.mathlib.div0 => "Error: calc: division by zero"
              | Calc64.mathlib.overflow => "Error: calc: overflow"
              | _ => "Error: calc: math error"
              end)])%list, 2).
Proof. apply library_error64. Qed.

Lemma library_error_reported_witness :
  Calc64.main Spec.checked64 "calc" [opt_o "fact"; opt_a "21"]
  = ([Engine (call_fact 21); Error "Error: calc: overflow"], 2).
Proof.
  apply (library_error_reported Spec.checked64 "calc"
           [opt_o "fact"; opt_a "21"]
           (Calc64.mk_context operation.fact true 21 true 0 false
              (Calc64.mathlib.ml_result_init Spec.checked64))).
  - reflexivity.
  - reflexivity.
  - vm_compute. discriminate.
Defined.

Lemma results32 lb m prog opts l :
  Calc32.resolves lb prog opts l -> Calc32.well_formed l = true ->
  (Calc32.op l = operation.div ->
   let r := Calc32.mathlib.ml_div m (Calc32.a l) (Calc32.b l) in
   Calc32.main lb m prog opts
   = match Calc32.mathlib.error r with
     | Calc32.mathlib.ok =>
         ([Engine (call_div (Calc32.a l) (Calc32.b l));
           Result fmt_d (Calc32.mathlib.value r)], 0)
     | Calc32.mathlib.div0 =>
         ([Engine (call_div (Calc32.a l) (Calc32.b l));
           Error "Error: div: division by zero"], 2)
     | Calc32.mathlib.other =>
         ([Engine (call_div (Calc32.a l) (Calc32.b l));
           Error "Error: div: unknown math error"], 2)
     end) /\
  (Calc32.op l <> operation.div ->
   ~ (Calc32.op l = operation.pow /\ Calc32.b l < 0) ->
   ~ (Calc32.op l = operation.fact /\ Calc32.a l < 0) ->
   result (Calc32.main lb m prog opts) = 0 /\
   exists call v,
     trace (Calc32.main lb m prog opts) = [Engine call; Result fmt_d v]).
Proof.
  intros H W. rewrite (main32_resolved _ _ _ _ _ H).
  pose proof (resolves32_inv _ _ _ _ H) as [I _].
  destruct l as [a b ha hb o ho]. unfold Calc32.well_formed in W.
  simpl in *. flags W. apply eqb_prop in W0. subst ho ha.
  split.
  - intros ->. simpl in W0. subst hb. simpl.
    destruct (Calc32.mathlib.error (Calc32.mathlib.ml_div m a b));
      reflexivity.
  - intros Nd Np Nf.
    destruct o; simpl in W0; subst hb; simpl;
      try congruence; try (exfalso; apply (proj1 I); reflexivity);
      repeat match goal with
             | |- context [Z.ltb ?x 0] => destruct (Z.ltb_spec x 0); simpl
             end;
      try (exfalso; apply Np; split; [reflexivity | assumption]);
      try (exfalso; apply Nf; split; [reflexivity | assumption]);
      split; eauto.
Qed.

(** X13.  In the second program, for a request that passed the usage
    tests: a [div] prints the quotient and exits with 0 when the library
    reports no error, and otherwise prints the division-by-zero line
    or, for any other error, the unknown-math-error line, and exits
    with 2; every other operation without a domain violation exits with
    0 after the call and one [%d] line, whatever [error] the library
    set. *)
Theorem library_result32
    (long_bits : Z) (m : Calc32.mathlib.lib) (prog : string)
    (opts : list getopt_ret) (l : Calc32.locals) :
  Calc32.resolves long_bits prog opts l -> Calc32.well_formed l = true ->
  (Calc32.op l = operation.div ->
   let r := Calc32.mathlib.ml_div m (Calc32.a l) (Calc32.b l) in
   Calc32.main long_bits m prog opts
   = match Calc32.mathlib.error r with
     | Calc32.mathlib.ok =>
         ([Engine (call_div (Calc32.a l) (Calc32.b l));
           Result fmt_d (Calc32.mathlib.value r)], 0)
     | Calc32.mathlib.div0 =>
         ([Engine (call_div (Calc32.a l) (Calc32.b l));
           Error "Error: div: division by zero"], 2)
     | Calc32.mathlib.other =>
         ([Engine (call_div (Calc32.a l) (Calc32.b l));
           Error "Error: div: unknown math error"], 2)
     end) /\
  (Calc32.op l <> operation.div ->
   ~ (Calc32.op l = operation.pow /\ Calc32.b l < 0) ->
   ~ (Calc32.op l = operation.fact /\ Calc32.a l < 0) ->
   result (Calc32.main long_bits m prog opts) = 0 /\
   exists call v,
     trace (Calc32.main long_bits m prog opts)
     = [Engine call; Result fmt_d v]).
Proof. apply results32. Qed.

Lemma library_result32_witness :
  Calc32.main 64 Spec.checked32 "calc"
    [opt_o "div"; opt_a "-2147483648"; opt_b "-1"]
  = ([Engine (call_div (-2147483648) (-1));
      Error "Error: div: unknown math error"], 2) /\
  result (Calc32.main 64 Spec.checked32 "calc" [opt_o "fact"; opt_a "13"])
  = 0.
Proof.
  split.
  - apply (proj1 (library_result32 64 Spec.checked32 "calc"
                    [opt_o "div"; opt_a "-2147483648"; opt_b "-1"]
                    (Calc32.mk_locals (-2147483648) (-1) true true
                       operation.div true)
                    ltac:(reflexivity) ltac:(reflexivity))).
    reflexivity.
  - apply (proj2 (library_result32 64 Spec.checked32 "calc"
                    [opt_o "fact"; opt_a "13"]
                    (Calc32.mk_locals 13 0 true false operation.fact true)
                    ltac:(reflexivity) ltac:(reflexivity))).
    + discriminate.
    + intros [H _]. discriminate H.
    + intros [_ H]. vm_compute in H. discriminate H.
Defined.

(** ** More on the operands *)

Lemma skip_space_more ws s :
  Spec.all_space ws = true ->
  Libc.skip_space (ws ++ s) = Libc.skip_space s.
Proof.
  induction ws as [|w ws IH]; simpl; intros W; [reflexivity|].
  apply andb_true_iff in W as [W1 W2]. rewrite W1. auto.
Qed.

Lemma skip_space_length s :
  (String.length (Libc.skip_space s) <= String.length s)%nat.
Proof.
  induction s as [|c r IH]; simpl; [lia|].
  destruct (Libc.isspace c); simpl; lia.
Qed.

Lemma endptr_clamp lo hi v rest :
  Libc.endptr (Libc.clamp_to lo hi v rest) = rest.
Proof.
  unfold Libc.clamp_to.
  destruct (Z.ltb v lo); [|destruct (Z.ltb hi v)]; reflexivity.
Qed.

Lemma same_ptr_shorter p q :
  (String.length p < String.length q)%nat -> Libc.same_ptr p q = false.
Proof. intros H. unfold Libc.same_ptr. apply Nat.eqb_neq. lia. Qed.

(** Either nothing is converted, from [s] as from [ws ++ s], or the
    same conversion ends short of the start of both. *)
Lemma strtol_leading_space lo hi ws s :
  Spec.all_space ws = true ->
  (Libc.same_ptr (Libc.endptr (Libc.strtol lo hi s)) s = true /\
   Libc.same_ptr (Libc.endptr (Libc.strtol lo hi (ws ++ s))) (ws ++ s) = true)
  \/
  (Libc.strtol lo hi (ws ++ s) = Libc.strtol lo hi s /\
   Libc.same_ptr (Libc.endptr (Libc.strtol lo hi s)) s = false /\
   Libc.same_ptr (Libc.endptr (Libc.strtol lo hi s)) (ws ++ s) = false).
Proof.
  intros W. unfold Libc.strtol. rewrite (skip_space_more ws s W).
  pose proof (skip_space_length s) as L1.
  destruct (Libc.skip_space s) as [|c r] eqn:S1.
  - left. simpl. rewrite !same_ptr_refl. auto.
  - assert (forall (neg : bool) (s2 : string),
              (String.length s2 <= String.length (String c r))%nat ->
              let '(m, n, rest) := Libc.scan_digits 0 s2 in
              (Libc.same_ptr
                 (Libc.endptr
                    match n with
                    | O => Libc.mk_strtol 0 s false
                    | S _ => Libc.clamp_to lo hi (if neg then - m else m) rest
                    end) s = true /\
               Libc.same_ptr
                 (Libc.endptr
                    match n with
                    | O => Libc.mk_strtol 0 (ws ++ s) false
                    | S _ => Libc.clamp_to lo hi (if neg then - m else m) rest
                    end) (ws ++ s) = true) \/
              (match n with
               | O => Libc.mk_strtol 0 (ws ++ s) false
               | S _ => Libc.clamp_to lo hi (if neg then - m else m) rest
               end
               = match n with
                 | O => Libc.mk_strtol 0 s false
                 | S _ => Libc.clamp_to lo hi (if neg then - m else m) rest
                 end /\
               Libc.same_ptr
                 (Libc.endptr
                    match n with
                    | O => Libc.mk_strtol 0 s false
                    | S _ => Libc.clamp_to lo hi (if neg then - m else m) rest
                    end) s = false /\
               Libc.same_ptr
                 (Libc.endptr
                    match n with
                    | O => Libc.mk_strtol 0 s false
                    | S _ => Libc.clamp_to lo hi (if neg then - m else m) rest
                    end) (ws ++ s) = false)) as Core.
    { intros neg s2 L2.
      destruct (scan_digits_split s2 0) as [ds [E [_ [Ld _]]]].
      destruct (Libc.scan_digits 0 s2) as [[m n] rest]. simpl in E, Ld.
      destruct n as [|n].
      - left. simpl. rewrite !same_ptr_refl. auto.
      - right. rewrite endptr_clamp.
        assert (String.length rest < String.length s)%nat as Lr.
        { rewrite E, length_append in L2. simpl in L1, L2. lia. }
        repeat split; apply same_ptr_shorter; [|rewrite length_append]; lia. }
    destruct (Ascii.eqb c "-"); [|destruct (Ascii.eqb c "+")].
    + assert (K := Core true r ltac:(simpl; lia)).
      destruct (Libc.scan_digits 0 r) as [[m n] rest]. exact K.
    + assert (K := Core false r ltac:(simpl; lia)).
      destruct (Libc.scan_digits 0 r) as [[m n] rest]. exact K.
    + assert (K := Core false (String c r) ltac:(lia)).
      destruct (Libc.scan_digits 0 (String c r)) as [[m n] rest]. exact K.
Qed.

Lemma parse_i64_leading_space ws s :
  Spec.all_space ws = true ->
  Calc64.parse_i64 (ws ++ s) = Calc64.parse_i64 s.
Proof.
  intros W. unfold Calc64.parse_i64, Libc.strtoll.
  destruct (strtol_leading_space Libc.LLONG_MIN Libc.LLONG_MAX ws s W)
    as [[A B] | [E [A B]]].
  - rewrite A, B. reflexivity.
  - rewrite E, A, B. reflexivity.
Qed.

Lemma parse_int_leading_space lb ws s :
  Spec.all_space ws = true ->
  Calc32.parse_int lb (ws ++ s) = Calc32.parse_int lb s.
Proof.
  intros W. unfold Calc32.parse_int.
  destruct (strtol_leading_space (Calc32.LONG_MIN lb) (Calc32.LONG_MAX lb)
              ws s W) as [[A B] | [E [A B]]].
  - rewrite A, B. reflexivity.
  - rewrite E, A, B. reflexivity.
Qed.

(** X14.  White space in front of an operand string never changes what
    [parse_i64] or [parse_int] make of it: the same value, or the same
    refusal, whatever the width of [long]. *)
Theorem leading_space_ignored (long_bits : Z) (ws s : string) :
  Spec.all_space ws = true ->
  Calc64.parse_i64 (ws ++ s) = Calc64.parse_i64 s /\
  Calc32.parse_int long_bits (ws ++ s) = Calc32.parse_int long_bits s.
Proof.
  intros W. split;
    [apply parse_i64_leading_space | apply parse_int_leading_space];
    exact W.
Qed.

Lemma leading_space_ignored_witness :
  Calc64.parse_i64 ("  " ++ "-12") = Calc64.parse_i64 "-12" /\
  Calc32.parse_int 32 (" " ++ "7 ") = Calc32.parse_int 32 "7 ".
Proof.
  split.
  - apply (proj1 (leading_space_ignored 32 "  " "-12" ltac:(reflexivity))).
  - apply (proj2 (leading_space_ignored 32 " " "7 " ltac:(reflexivity))).
Defined.

(** X15.  Where [long] is wider than 32 bits the two programs agree on
    operands: [parse_int] takes a string exactly when [parse_i64] takes
    it with a value that fits [int], and then with that value. *)
Theorem parsers_agree (long_bits : Z) (s : string) (v : Z) :
  32 < long_bits ->
  (Calc32.parse_int long_bits s = Some v <->
   Calc64.parse_i64 s = Some v /\ Libc.INT_MIN <= v <= Libc.INT_MAX).
Proof.
  intros HL. rewrite (parse_int_operand long_bits s v HL).
  rewrite parse_i64_operand. unfold Spec.operand. split.
  - intros [ws [body [E [W [B R]]]]]. split; [|exact R].
    exists ws, body. repeat split; auto;
      unfold Libc.INT_MIN, Libc.INT_MAX, Libc.LLONG_MIN, Libc.LLONG_MAX in *;
      lia.
  - intros [[ws [body [E [W [B _]]]]] R]. exists ws, body. auto.
Qed.

Lemma parsers_agree_witness :
  Calc64.parse_i64 "+2147483647" = Some 2147483647 /\
  Libc.INT_MIN <= 2147483647 <= Libc.INT_MAX.
Proof.
  apply (proj1 (parsers_agree 64 "+2147483647" 2147483647 ltac:(lia))).
  reflexivity.
Defined.

(** ** Results read back as operands *)

Lemma digit_char d :
  0 <= d <= 9 ->
  Libc.isdigit (ascii_of_nat (Z.to_nat (48 + d))) = true /\
  Libc.digit_value (ascii_of_nat (Z.to_nat (48 + d))) = d.
Proof.
  intros H.
  assert (d = 0 \/ d = 1 \/ d = 2 \/ d = 3 \/ d = 4 \/ d = 5 \/ d = 6 \/
          d = 7 \/ d = 8 \/ d = 9) as C by lia.
  repeat (destruct C as [-> | C]; [split; reflexivity|]).
  subst; split; reflexivity.
Qed.

Lemma digits_of_nonempty fuel : forall n acc,
  Libc.at_nul acc = false -> Libc.at_nul (Stdio.digits_of fuel n acc) = false.
Proof.
  induction fuel as [|f IH]; intros n acc A; simpl; auto.
  destruct (Z.eqb (n / 10) 0); auto.
Qed.

Lemma digits_of_value fuel : forall n acc,
  0 <= n < 2 ^ Z.of_nat fuel -> Spec.all_digits acc = true ->
  Spec.all_digits (Stdio.digits_of fuel n acc) = true /\
  Spec.decimal_value (Stdio.digits_of fuel n acc)
  = n * 10 ^ Z.of_nat (String.length acc) + Spec.decimal_value acc.
Proof.
  induction fuel as [|f IH]; intros n acc R D.
  - simpl in *. split; [exact D|]. assert (n = 0) as -> by lia. lia.
  - cbn [Stdio.digits_of].
    assert (0 <= n mod 10 <= 9) as M by (pose proof (Z.mod_pos_bound n 10); lia).
    destruct (digit_char _ M) as [Dc Vc].
    pose proof (Z.div_mod n 10 ltac:(lia)) as DM.
    destruct (Z.eqb_spec (n / 10) 0) as [Q | Q].
    + split; [simpl; rewrite Dc, D; reflexivity|].
      cbn [Spec.decimal_value]. rewrite Vc. nia.
    + rewrite Nat2Z.inj_succ, Z.pow_succ_r in R by lia.
      assert (0 <= n / 10 < 2 ^ Z.of_nat f) as R'.
      { split; [apply Z.div_pos; lia|].
        apply Z.div_lt_upper_bound; lia. }
      destruct (IH (n / 10)
                  (String (ascii_of_nat (Z.to_nat (48 + n mod 10))) acc) R')
        as [D' V'].
      { simpl. rewrite Dc, D. reflexivity. }
      split; [exact D'|]. rewrite V'.
      cbn [Spec.decimal_value String.length]. rewrite Vc.
      rewrite Nat2Z.inj_succ, Z.pow_succ_r by lia. nia.
Qed.

Lemma print_unsigned_digits n :
  0 <= n ->
  Spec.digits (Stdio.print_unsigned n) = true /\
  Spec.decimal_value (Stdio.print_unsigned n) = n.
Proof.
  intros H. unfold Stdio.print_unsigned.
  assert (0 <= n < 2 ^ Z.of_nat (S (Z.to_nat (Z.log2 n)))) as R.
  { rewrite Nat2Z.inj_succ, Z2Nat.id by apply Z.log2_nonneg.
    destruct (Z.eq_dec n 0) as [-> | N]; [simpl; lia|].
    pose proof (Z.log2_spec n ltac:(lia)). lia. }
  destruct (digits_of_value _ n "" R eq_refl) as [D V].
  split.
  - unfold Spec.digits. rewrite D, andb_true_r.
    cbn [Stdio.digits_of].
    destruct (Z.eqb (n / 10) 0); [reflexivity|].
    rewrite digits_of_nonempty; reflexivity.
  - rewrite V. simpl. lia.
Qed.

Lemma print_unsigned_decimal n :
  0 <= n -> Spec.signed_decimal (Stdio.print_unsigned n) = Some n.
Proof.
  intros H. destruct (print_unsigned_digits n H) as [D V].
  destruct (digits_inv _ D) as [_ [c [r [E Hc]]]].
  unfold Spec.signed_decimal. rewrite E in *.
  destruct (isdigit_not_sign c Hc) as [-> ->]. rewrite D, V. reflexivity.
Qed.

Lemma print_signed_decimal v :
  Spec.signed_decimal (Stdio.print_signed v) = Some v.
Proof.
  unfold Stdio.print_signed. destruct (Z.ltb_spec v 0).
  - destruct (print_unsigned_digits (- v) ltac:(lia)) as [D V].
    simpl. rewrite D, V. f_equal. lia.
  - apply print_unsigned_decimal. assumption.
Qed.

Lemma parse_i64_decimal body x :
  Spec.signed_decimal body = Some x ->
  Calc64.parse_i64 body
  = if Spec.in_range Libc.LLONG_MIN Libc.LLONG_MAX x then Some x else None.
Proof.
  intros B. unfold Calc64.parse_i64, Libc.strtoll.
  pose proof (strtol_complete Libc.LLONG_MIN Libc.LLONG_MAX "" body x
                eq_refl B) as E.
  pose proof (operand_nonempty "" body x B) as N. simpl in E, N.
  rewrite E. unfold Libc.clamp_to, Spec.in_range.
  destruct (Z.ltb_spec x Libc.LLONG_MIN), (Z.leb_spec Libc.LLONG_MIN x);
    try lia; simpl;
    [ rewrite N; reflexivity |].
  destruct (Z.ltb_spec Libc.LLONG_MAX x), (Z.leb_spec x Libc.LLONG_MAX);
    try lia; simpl; rewrite N; reflexivity.
Qed.

Lemma sprintf_parses_back (long_bits : Z) (v : Z) :
  (Libc.LLONG_MIN <= v <= Libc.LLONG_MAX ->
   Calc64.parse_i64 (Stdio.sprintf fmt_lld v) = Some v) /\
  (0 <= v ->
   Calc64.parse_i64 (Stdio.sprintf fmt_llu v)
   = if (v <=? Libc.LLONG_MAX)%Z then Some v else None) /\
  (32 < long_bits -> Libc.INT_MIN <= v <= Libc.INT_MAX ->
   Calc32.parse_int long_bits (Stdio.sprintf fmt_d v) = Some v).
Proof.
  split; [|split].
  - intros R. cbn [Stdio.sprintf].
    rewrite (parse_i64_decimal _ v (print_signed_decimal v)).
    unfold Spec.in_range.
    destruct (Z.leb_spec Libc.LLONG_MIN v), (Z.leb_spec v Libc.LLONG_MAX);
      try lia; reflexivity.
  - intros R. cbn [Stdio.sprintf].
    rewrite (parse_i64_decimal _ v (print_unsigned_decimal v R)).
    unfold Spec.in_range.
    destruct (Z.leb_spec Libc.LLONG_MIN v), (Z.leb_spec v Libc.LLONG_MAX);
      try reflexivity.
    unfold Libc.LLONG_MIN in *. lia.
  - intros HL R. cbn [Stdio.sprintf].
    apply (parse_int_operand long_bits _ v HL).
    exists "", (Stdio.print_signed v). repeat split; try tauto.
    apply print_signed_decimal.
Qed.

(** X16.  What the programs print can be given back as an operand.
    Whatever the library, a result the first program prints with [%lld]
    is read by [parse_i64] as the same value, and one it prints with
    [%llu] is read as the same value when it is at most 2^63 - 1 and is
    refused above.  A number that fits [int], printed with [%d] as the
    second program does, is read by [parse_int] as the same value where
    [long] is wider than 32 bits. *)
Theorem printed_result_parses_back
    (m : Calc64.mathlib.lib) (long_bits : Z) (prog : string)
    (opts : list getopt_ret) (f : num_format) (v : Z) :
  (In (Result f v) (trace (Calc64.main m prog opts)) ->
   Calc64.parse_i64 (Stdio.sprintf f v)
   = match f with
     | fmt_llu => if (v <=? Libc.LLONG_MAX)%Z then Some v else None
     | _ => Some v
     end) /\
  (32 < long_bits -> Libc.INT_MIN <= v <= Libc.INT_MAX ->
   Calc32.parse_int long_bits (Stdio.sprintf fmt_d v) = Some v).
Proof.
  split; [|apply sprintf_parses_back].
  intros H. apply tagged64 in H as [c [_ [_ K]]].
  destruct (Calc64.mathlib.kind _); destruct K as [-> ->].
  - apply (sprintf_parses_back long_bits).
    unfold Calc64.mathlib.value_i64, Libc.LLONG_MIN, Libc.LLONG_MAX.
    pose proof (Z.mod_pos_bound
                  (Calc64.mathlib.value
                     (Calc64.r (snd (result (Calc64.calc m c)))) + 2 ^ 63)
                  (2 ^ 64) ltac:(lia)).
    lia.
  - apply (sprintf_parses_back long_bits).
    unfold Calc64.mathlib.value_u64. apply Z.mod_pos_bound. lia.
Qed.

Lemma printed_result_parses_back_witness :
  Calc64.parse_i64 (Stdio.sprintf fmt_lld (-9223372036854775808))
  = Some (-9223372036854775808) /\
  Calc32.parse_int 64 (Stdio.sprintf fmt_d (-120)) = Some (-120).
Proof.
  split.
  - apply (proj1 (printed_result_parses_back Spec.checked64 64 "calc"
                    [opt_o "sub"; opt_a "-9223372036854775807"; opt_b "1"]
                    fmt_lld (-9223372036854775808))).
    vm_compute. right; left; reflexivity.
  - apply (proj2 (printed_result_parses_back Spec.checked64 64 "calc" []
                    fmt_d (-120))).
    + lia.
    + unfold Libc.INT_MIN, Libc.INT_MAX. lia.
Defined.
